(** * irrd.rpsl.parser: the RPSL object model, embedded and verified

    A shallow embedding of [src/irrd/rpsl/parser.py] (class [RPSLObject] and
    its metaclass) together with the properties of its extraction,
    validation, normalisation, primary key, rendering and update code.

    Python [str] values are modelled by [string]: sequences of code points
    below 256, with the builtin string methods the parser calls written out
    below from their documented behaviour.  [str.upper] can leave that
    range, so its result is given as the list of its code points. *)

From Stdlib Require Import Ascii String ZArith Lia List DecimalString.
From stdpp Require Import base option list gmap strings.

Local Open Scope stdpp_scope.

(** ** Python string builtins used by the parser *)

Module PyStr.

Abbreviation LF := ("010"%char).
Abbreviation CR := ("013"%char).
Abbreviation TAB := ("009"%char).

(** The one-character string ["\n"]. *)
Definition NL : string := String LF "".

(** [str.isspace] on one code point: the characters removed by
    [str.strip()] without argument. *)
Definition isspace (c : ascii) : bool :=
  match c with
  | "009" | "010" | "011" | "012" | "013"
  | "028" | "029" | "030" | "031" | " " | "133" | "160" => true
  | _ => false
  end%char.

(** Line boundaries of [str.splitlines]. *)
Definition islinebreak (c : ascii) : bool :=
  match c with
  | "010" | "011" | "012" | "013" | "028" | "029" | "030" | "133" => true
  | _ => false
  end%char.

(** Characters removed by [strip("\n, ")]. *)
Definition is_nl_comma_space (c : ascii) : bool :=
  match c with
  | "010" | "," | " " => true
  | _ => false
  end%char.

Fixpoint lstrip_chars (p : ascii -> bool) (s : string) : string :=
  match s with
  | "" => ""
  | String c s' => if p c then lstrip_chars p s' else s
  end.

Fixpoint rstrip_chars (p : ascii -> bool) (s : string) : string :=
  match s with
  | "" => ""
  | String c s' =>
      match rstrip_chars p s' with
      | "" => if p c then "" else String c ""
      | r => String c r
      end
  end.

Definition strip_chars (p : ascii -> bool) (s : string) : string :=
  rstrip_chars p (lstrip_chars p s).

(** [s.strip()] *)
Definition strip (s : string) : string := strip_chars isspace s.

(** [s.splitlines()]: split at line boundaries, ["\r\n"] counting as one;
    no empty last line is produced after a final boundary. *)
Fixpoint splitlines (s : string) : list string :=
  match s with
  | "" => []
  | String c s' =>
      if islinebreak c then
        match s' with
        | String d s'' =>
            if Ascii.eqb c CR && Ascii.eqb d LF then "" :: splitlines s''
            else "" :: splitlines s'
        | "" => [""]
        end
      else
        match splitlines s' with
        | [] => [String c ""]
        | h :: t => String c h :: t
        end
  end.

(** [c in s] for a one-character [c]. *)
Fixpoint contains (c : ascii) (s : string) : bool :=
  match s with
  | "" => false
  | String d s' => if Ascii.eqb c d then true else contains c s'
  end.

(** [s.count(c)] for a one-character [c]. *)
Fixpoint count (c : ascii) (s : string) : nat :=
  match s with
  | "" => 0
  | String d s' => (if Ascii.eqb c d then 1 else 0) + count c s'
  end.

(** [s.split(sep)] for a one-character separator: never empty. *)
Fixpoint split (sep : ascii) (s : string) : list string :=
  match s with
  | "" => [""]
  | String c s' =>
      if Ascii.eqb sep c then "" :: split sep s'
      else
        match split sep s' with
        | [] => [String c ""]
        | h :: t => String c h :: t
        end
  end.

(** [s.split(sep, maxsplit=1)]: one or two pieces. *)
Fixpoint split1 (sep : ascii) (s : string) : list string :=
  match s with
  | "" => [""]
  | String c s' =>
      if Ascii.eqb sep c then [""; s']
      else
        match split1 sep s' with
        | h :: t => String c h :: t
        | [] => [String c ""]
        end
  end.

(** [sep.join(l)] *)
Fixpoint join (sep : string) (l : list string) : string :=
  match l with
  | [] => ""
  | [x] => x
  | x :: rest => x +:+ sep +:+ join sep rest
  end.

Fixpoint spaces (n : nat) : string :=
  match n with
  | 0 => ""
  | S k => String " "%char (spaces k)
  end.

(** [s.ljust(width)] *)
Definition ljust (width : nat) (s : string) : string :=
  s +:+ spaces (width - String.length s).

Definition lower_char (c : ascii) : ascii :=
  let n := N_of_ascii c in
  if ((65 <=? n) && (n <=? 90) ||
      (192 <=? n) && (n <=? 222) && negb (n =? 215))%N
  then ascii_of_N (n + 32) else c.

(** [s.lower()] *)
Fixpoint lower (s : string) : string :=
  match s with
  | "" => ""
  | String c s' => String (lower_char c) (lower s')
  end.

(** The code points of a string. *)
Definition code_points (s : string) : list N :=
  map N_of_ascii (list_ascii_of_string s).

(** The upper-case form of one character, as code points: the sharp s (223)
    becomes ["SS"], the micro sign (181) the Greek capital mu (924) and y
    with diaeresis (255) its capital (376), which lie above code point
    255. *)
Definition upper_char (c : ascii) : list N :=
  let n := N_of_ascii c in
  if ((97 <=? n) && (n <=? 122) ||
      (224 <=? n) && (n <=? 254) && negb (n =? 247))%N
  then [(n - 32)%N]
  else if (n =? 223)%N then [83%N; 83%N]
  else if (n =? 181)%N then [924%N]
  else if (n =? 255)%N then [376%N]
  else [n].

(** [s.upper()], as the code points of the result. *)
Fixpoint upper (s : string) : list N :=
  match s with
  | "" => []
  | String c s' => upper_char c ++ upper s'
  end.

(** [s.startswith(p)] *)
Definition startswith (p s : string) : bool := String.prefix p s.

(** [s[1:]] *)
Definition tail (s : string) : string :=
  match s with
  | "" => ""
  | String _ s' => s'
  end.

(** [s.replace(old, new)]: occurrences of [old] are replaced from left to
    right without overlap; an empty [old] matches before every character
    and at the end. *)
Fixpoint replace_go (old new s : string) (skip : nat) : string :=
  match s with
  | "" => ""
  | String c s' =>
      match skip with
      | S k => replace_go old new s' k
      | 0 =>
          if String.prefix old s
          then new +:+ replace_go old new s' (String.length old - 1)
          else String c (replace_go old new s' 0)
      end
  end.

Fixpoint intersperse_all (new s : string) : string :=
  match s with
  | "" => new
  | String c s' => new +:+ String c (intersperse_all new s')
  end.

Definition replace (old new s : string) : string :=
  match old with
  | "" => intersperse_all new s
  | _ => replace_go old new s 0
  end.

(** [str(n)] for a natural number. *)
Definition str_of_nat (n : nat) : string :=
  NilZero.string_of_uint (Nat.to_uint n).

End PyStr.

Import PyStr.


(** ** Collaborators of the parser *)

(** Modelled from the spec: [RPSLParserMessages] (module
    [irrd.rpsl.validators], not among the sources): an ordered error list and
    an ordered warning list, accumulated and never raising. *)
Record RPSLParserMessages := {
  errors : list string;
  warnings : list string
}.

Definition no_messages : RPSLParserMessages :=
  {| errors := []; warnings := [] |}.

(** [messages.error(text)] *)
Definition msg_error (m : RPSLParserMessages) (text : string)
  : RPSLParserMessages :=
  {| errors := errors m ++ [text]; warnings := warnings m |}.

(** Modelled from the spec: [RPSLTextField] (module [irrd.rpsl.fields], not
    among the sources): the four flags the parser reads and the capability
    [clean(normalised_value, messages)], which yields the cleaned value or
    nothing and may record messages. *)
Record RPSLTextField := {
  primary_key : bool;
  lookup_key : bool;
  optional : bool;
  multiple : bool;
  clean : string -> RPSLParserMessages -> option string * RPSLParserMessages
}.

(** ** Class attributes, as computed by the metaclass *)

Record RPSLClass := {
  fields : list (string * RPSLTextField);
  rpsl_object_class : option string;
  pk_fields : list string;
  lookup_fields : list string;
  attrs_allowed : list string;
  attrs_required : list string;
  attrs_multiple : list string
}.

Definition keys_where (p : RPSLTextField -> bool)
    (fs : list (string * RPSLTextField)) : list string :=
  map fst (filter (fun kf => p (snd kf) = true) fs).

(** [RPSLObjectMeta.__init__]: without declared fields the defaults of the
    base class stay in place. *)
Definition RPSLObjectMeta_init (fs : list (string * RPSLTextField))
  : RPSLClass :=
  match fs with
  | [] =>
      {| fields := []; rpsl_object_class := None; pk_fields := [];
         lookup_fields := []; attrs_allowed := []; attrs_required := [];
         attrs_multiple := [] |}
  | (k, _) :: _ =>
      {| fields := fs;
         rpsl_object_class := Some k;
         pk_fields := keys_where primary_key fs;
         lookup_fields := keys_where lookup_key fs;
         attrs_allowed := map fst fs;
         attrs_required := keys_where (fun f => negb (optional f)) fs;
         attrs_multiple := keys_where multiple fs |}
  end.

(** [fields.get(name)] *)
Fixpoint fields_get (fs : list (string * RPSLTextField)) (name : string)
  : option RPSLTextField :=
  match fs with
  | [] => None
  | (k, f) :: rest => if String.eqb k name then Some f else fields_get rest name
  end.

(** [name in l] on a list of strings. *)
Definition in_list (name : string) (l : list string) : bool :=
  existsb (String.eqb name) l.

(** The text an f-string gives for [rpsl_object_class]. *)
Definition fmt_class (c : option string) : string :=
  match c with
  | Some s => s
  | None => "None"
  end.

(** ** The object *)

Definition RPSL_ATTRIBUTE_TEXT_WIDTH : nat := 16.

(** One entry of [TypeRPSLObjectData]: name, value, continuation chars. *)
Definition ObjectLine : Type := string * string * list string.

(** [cleaned_data] exists only once [_validate_object] has run. *)
Record RPSLObject := {
  strict_validation : bool;
  messages : RPSLParserMessages;
  _object_data : list ObjectLine;
  cleaned_data : option (gmap string string)
}.

Definition set_messages (o : RPSLObject) (m : RPSLParserMessages) :=
  {| strict_validation := strict_validation o; messages := m;
     _object_data := _object_data o; cleaned_data := cleaned_data o |}.

Definition set_object_data (o : RPSLObject) (d : list ObjectLine) :=
  {| strict_validation := strict_validation o; messages := messages o;
     _object_data := d; cleaned_data := cleaned_data o |}.

Definition set_cleaned_data (o : RPSLObject) (c : gmap string string) :=
  {| strict_validation := strict_validation o; messages := messages o;
     _object_data := _object_data o; cleaned_data := Some c |}.

Definition add_error (o : RPSLObject) (text : string) : RPSLObject :=
  set_messages o (msg_error (messages o) text).

Inductive exn := ValueError | IndexError | AttributeError.

Inductive result (A : Type) :=
| Ok (a : A)
| Raised (e : exn).
Arguments Ok {A} a.
Arguments Raised {A} e.

(** ** [_extract_attributes_values] *)

Definition continuation_chars : list string :=
  [" "; "+"; String TAB ""].

Definition is_continuation (line : string) : bool :=
  existsb (fun p => startswith p line) continuation_chars.

(** [_re_attr_name.match(s)] for the pattern [^[a-z0-9_-]+$]; the final [$]
    also matches just before a newline that ends the string. *)
Definition is_attr_name_char (c : ascii) : bool :=
  let n := N_of_ascii c in
  ((97 <=? n) && (n <=? 122) || (48 <=? n) && (n <=? 57)
   || (n =? 95) || (n =? 45))%N.

Fixpoint re_attr_name_match (s : string) : bool :=
  match s with
  | "" => false
  | String c s' =>
      is_attr_name_char c &&
      match s' with
      | "" => true
      | _ => String.eqb s' NL || re_attr_name_match s'
      end
  end.

(** The local variables of the extraction loop. *)
Record locals := {
  current_attr : option string;
  current_value : string;
  current_continuation_chars : list string
}.

(** Truth value of [current_attr]: [None] and the empty string are false. *)
Definition attr_pending (l : locals) : bool :=
  match current_attr l with
  | Some (String _ _) => true
  | _ => false
  end.

(** [self._object_data.append((current_attr, current_value, ...))], guarded by
    [if current_attr]. *)
Definition flush (o : RPSLObject) (l : locals) : RPSLObject :=
  match current_attr l with
  | Some (String _ _ as a) =>
      set_object_data o
        (_object_data o ++
           [(a, current_value l, current_continuation_chars l)])
  | _ => o
  end.

(** [line[0]] of a line that is not empty. *)
Definition first_char (line : string) : string :=
  match line with
  | String c _ => String c ""
  | "" => ""
  end.

Definition empty_line_error (line_no : nat) (line : string) : string :=
  "Line " +:+ str_of_nat (line_no + 1) +:+
  ": encountered empty line in the middle of object: [" +:+ line +:+ "]".

Definition malformed_name_error (line_no : nat) (attr : string) : string :=
  "Line " +:+ str_of_nat (line_no + 1) +:+
  ": encountered malformed attribute name: [" +:+ attr +:+ "]".

(** What one pass through the loop body does. *)
Inductive flow :=
| Next (o : RPSLObject) (l : locals)
| Return (o : RPSLObject)
| Raise (e : exn).

Definition extract_line (cls : RPSLClass) (o : RPSLObject) (l : locals)
    (line_no : nat) (line : string) : flow :=
  match line with
  | "" => Return (add_error o (empty_line_error line_no line))
  | _ =>
      if negb (is_continuation line) then
        let o1 := flush o l in
        match split1 ":" line with
        | [attr; value] =>
            let attr := lower attr in
            let value := strip value in
            if negb (in_list attr (attrs_allowed cls))
               && negb (re_attr_name_match attr)
            then Return (add_error o1 (malformed_name_error line_no attr))
            else Next o1 {| current_attr := Some attr;
                            current_value := value;
                            current_continuation_chars := [] |}
        | _ => Raise ValueError
        end
      else
        Next o {| current_attr := current_attr l;
                  current_value :=
                    current_value l +:+ NL +:+ strip (tail line);
                  current_continuation_chars :=
                    current_continuation_chars l ++ [first_char line] |}
  end.

Fixpoint extract_loop (cls : RPSLClass) (o : RPSLObject) (l : locals)
    (line_no : nat) (lines : list string) : result RPSLObject :=
  match lines with
  | [] => Ok (flush o l)
  | line :: rest =>
      match extract_line cls o l line_no line with
      | Next o' l' => extract_loop cls o' l' (S line_no) rest
      | Return o' => Ok o'
      | Raise e => Raised e
      end
  end.

Definition initial_locals : locals :=
  {| current_attr := None; current_value := "";
     current_continuation_chars := [] |}.

Definition _extract_attributes_values (cls : RPSLClass) (o : RPSLObject)
    (text : string) : result RPSLObject :=
  extract_loop cls o initial_locals 0 (splitlines (strip text)).

(** ** [_validate_attribute_counts] *)

(** [Counter(names)]: the names in order of first occurrence, each with the
    number of its occurrences. *)
Fixpoint counter_add (name : string) (c : list (string * nat))
  : list (string * nat) :=
  match c with
  | [] => [(name, 1)]
  | (k, n) :: rest =>
      if String.eqb k name then (k, S n) :: rest
      else (k, n) :: counter_add name rest
  end.

Definition Counter (names : list string) : list (string * nat) :=
  fold_left (fun c name => counter_add name c) names [].

Definition attr_of (a : ObjectLine) : string := fst (fst a).
Definition value_of (a : ObjectLine) : string := snd (fst a).
Definition markers_of (a : ObjectLine) : list string := snd a.

Definition unrecognised_error (cls : RPSLClass) (attr_name : string) :=
  "Unrecognised attribute " +:+ attr_name +:+ " on object " +:+
  fmt_class (rpsl_object_class cls).

Definition multiple_error (cls : RPSLClass) (attr_name : string) :=
  "Attribute " +:+ attr_name +:+ " on object " +:+
  fmt_class (rpsl_object_class cls) +:+
  " occurs multiple times, but is only allowed once".

Definition missing_error (cls : RPSLClass) (attr_required : string) :=
  "Mandatory attribute " +:+ attr_required +:+ " on object " +:+
  fmt_class (rpsl_object_class cls) +:+ " is missing".

(** Body of the loop over [attrs_present.items()]. *)
Definition check_present (cls : RPSLClass) (o : RPSLObject)
    (item : string * nat) : RPSLObject :=
  let '(attr_name, count) := item in
  let o1 :=
    if negb (in_list attr_name (attrs_allowed cls))
    then add_error o (unrecognised_error cls attr_name) else o in
  if (1 <? count) && negb (in_list attr_name (attrs_multiple cls))
  then add_error o1 (multiple_error cls attr_name) else o1.

(** Body of the loop over [attrs_required]. *)
Definition check_required (cls : RPSLClass)
    (attrs_present : list (string * nat)) (o : RPSLObject)
    (attr_required : string) : RPSLObject :=
  if negb (in_list attr_required (map fst attrs_present))
  then add_error o (missing_error cls attr_required) else o.

Definition _validate_attribute_counts (cls : RPSLClass) (o : RPSLObject)
  : RPSLObject :=
  let attrs_present := Counter (map attr_of (_object_data o)) in
  let o1 := fold_left (check_present cls) attrs_present o in
  fold_left (check_required cls attrs_present) (attrs_required cls) o1.

(** ** [_normalise_rpsl_value] *)

(** [line.split("#")[0]] *)
Definition before_hash (line : string) : string :=
  hd "" (split "#" line).

(** The loop over [value.splitlines()] that fills [normalized_lines]. *)
Fixpoint normalized_lines (lines : list string) : list string :=
  match lines with
  | [] => []
  | line :: rest =>
      match strip_chars is_nl_comma_space (before_hash line) with
      | "" => normalized_lines rest
      | cleaned_line => cleaned_line :: normalized_lines rest
      end
  end.

Definition _normalise_rpsl_value (value : string) : string :=
  if negb (contains LF value) then
    if contains "#" value then strip (before_hash value)
    else strip value
  else join "," (normalized_lines (splitlines value)).

(** ** [_clean_attribute_data] *)

(** Body of the loop over [enumerate(self._object_data)]. *)
Definition clean_line (cls : RPSLClass) (o : RPSLObject) (idx : nat)
    (entry : ObjectLine) : result RPSLObject :=
  let '(attr_name, value, continuation_chars) := entry in
  match fields_get (fields cls) attr_name with
  | Some field =>
      if strict_validation o || primary_key field || lookup_key field then
        let normalised_value := _normalise_rpsl_value value in
        let '(cleaned, m) := clean field normalised_value (messages o) in
        let o1 := set_messages o m in
        match cleaned with
        | Some (String _ _ as cleaned_value) =>
            let o2 :=
              if negb (String.eqb cleaned_value normalised_value) then
                let new_value :=
                  replace normalised_value cleaned_value value in
                set_object_data o1
                  (<[idx := (attr_name, new_value, continuation_chars)]>
                     (_object_data o1))
              else o1 in
            match cleaned_data o2 with
            | None => Raised AttributeError
            | Some cd =>
                match cd !! attr_name with
                | Some previous =>
                    Ok (set_cleaned_data o2
                          (<[attr_name :=
                               previous +:+ NL +:+ cleaned_value]> cd))
                | None =>
                    Ok (set_cleaned_data o2 (<[attr_name := cleaned_value]> cd))
                end
            end
        | _ => Ok o1
        end
      else Ok o
  | None => Ok o
  end.

Fixpoint clean_loop (cls : RPSLClass) (o : RPSLObject) (idx : nat)
    (entries : list ObjectLine) : result RPSLObject :=
  match entries with
  | [] => Ok o
  | entry :: rest =>
      match clean_line cls o idx entry with
      | Ok o' => clean_loop cls o' (S idx) rest
      | Raised e => Raised e
      end
  end.

Definition _clean_attribute_data (cls : RPSLClass) (o : RPSLObject)
  : result RPSLObject :=
  clean_loop cls o 0 (_object_data o).

(** ** [_validate_object], [read_rpsl_text], [__init__] *)

(** [clean]: the hook of the base class accepts. *)
Definition clean_hook (o : RPSLObject) : bool := true.

Definition _validate_object (cls : RPSLClass) (o : RPSLObject)
  : result RPSLObject :=
  let o1 := set_cleaned_data o ∅ in
  let o2 := if strict_validation o1
            then _validate_attribute_counts cls o1 else o1 in
  match _clean_attribute_data cls o2 with
  | Ok o3 => let _ := clean_hook o3 in Ok o3
  | Raised e => Raised e
  end.

Definition read_rpsl_text (cls : RPSLClass) (o : RPSLObject) (text : string)
  : result RPSLObject :=
  let o1 := set_messages o no_messages in
  match _extract_attributes_values cls o1 text with
  | Ok o2 => _validate_object cls o2
  | Raised e => Raised e
  end.

(** [RPSLObject(from_text, strict_validation)] *)
Definition RPSLObject_init (cls : RPSLClass) (from_text : option string)
    (strict : bool) : result RPSLObject :=
  let o := {| strict_validation := strict; messages := no_messages;
              _object_data := []; cleaned_data := None |} in
  match from_text with
  | Some (String _ _ as text) => read_rpsl_text cls o text
  | _ => Ok o
  end.

(** ** [pk] *)

(** [self.cleaned_data.get(field, "")] *)
Definition cleaned_get (o : RPSLObject) (field : string) : result string :=
  match cleaned_data o with
  | None => Raised AttributeError
  | Some cd => Ok (default "" (cd !! field))
  end.

Fixpoint composite_values (o : RPSLObject) (fs : list string)
  : result (list string) :=
  match fs with
  | [] => Ok []
  | field :: rest =>
      match cleaned_get o field with
      | Ok v =>
          match composite_values o rest with
          | Ok vs => Ok (v :: vs)
          | Raised e => Raised e
          end
      | Raised e => Raised e
      end
  end.

Definition pk (cls : RPSLClass) (o : RPSLObject) : result (list N) :=
  match pk_fields cls with
  | [field] =>
      match cleaned_get o field with
      | Ok v => Ok (upper v)
      | Raised e => Raised e
      end
  | fs =>
      match composite_values o fs with
      | Ok vs => Ok (upper (join "," vs))
      | Raised e => Raised e
      end
  end.

(** ** [render_rpsl_text] *)

(** The loop over [enumerate(value_lines)]; [continuation_chars[idx-1]] raises
    when there are too few continuation characters. *)
Fixpoint render_value_lines (attr_display : string)
    (continuation_chars : list string) (idx : nat)
    (value_lines : list string) : result string :=
  match value_lines with
  | [] => Ok ""
  | line :: rest =>
      let first :=
        match idx with
        | 0 => Ok (attr_display +:+ line)
        | S i =>
            match continuation_chars !! i with
            | Some c =>
                Ok (c +:+ spaces (RPSL_ATTRIBUTE_TEXT_WIDTH - 1) +:+ line)
            | None => Raised IndexError
            end
        end in
      match first with
      | Ok out =>
          match render_value_lines attr_display continuation_chars
                  (S idx) rest with
          | Ok more => Ok (out +:+ NL +:+ more)
          | Raised e => Raised e
          end
      | Raised e => Raised e
      end
  end.

Definition render_entry (entry : ObjectLine) : result string :=
  let '(attr, value, continuation_chars) := entry in
  let attr_display := ljust RPSL_ATTRIBUTE_TEXT_WIDTH (attr +:+ ":") in
  match splitlines value with
  | [] => Ok (attr +:+ ":" +:+ NL)
  | value_lines =>
      render_value_lines attr_display continuation_chars 0 value_lines
  end.

Fixpoint render_entries (entries : list ObjectLine) : result string :=
  match entries with
  | [] => Ok ""
  | entry :: rest =>
      match render_entry entry with
      | Ok out =>
          match render_entries rest with
          | Ok more => Ok (out +:+ more)
          | Raised e => Raised e
          end
      | Raised e => Raised e
      end
  end.

Definition render_rpsl_text (o : RPSLObject) : result string :=
  render_entries (_object_data o).

(** ** [_update_attribute_value] *)

(** The argument [new_values]: one string or a list of strings. *)
Inductive new_values_arg :=
| OneValue (v : string)
| Values (vs : list string).

(** [l.insert(i, x)]: an index past the end appends. *)
Definition list_insert_at {A} (i : nat) (x : A) (l : list A) : list A :=
  take i l ++ x :: drop i l.

(** The loop inserting the new values at [insert_idx], [insert_idx + 1], ... *)
Fixpoint insert_values (attribute : string) (insert_idx : nat)
    (new_values : list string) (data : list ObjectLine) : list ObjectLine :=
  match new_values with
  | [] => data
  | new_value :: rest =>
      insert_values attribute (S insert_idx) rest
        (list_insert_at insert_idx (attribute, new_value, []) data)
  end.

Definition _update_attribute_value (o : RPSLObject) (attribute : string)
    (new_values : new_values_arg) : result RPSLObject :=
  let new_values :=
    match new_values with
    | OneValue v => [v]
    | Values vs => vs
    end in
  match cleaned_data o with
  | None => Raised AttributeError
  | Some cd =>
      let o1 := set_cleaned_data o (<["attribute" := join NL new_values]> cd) in
      let kept :=
        filter (fun a => attr_of a ≠ attribute) (_object_data o1) in
      Ok (set_object_data o1 (insert_values attribute 1 new_values kept))
  end.

(** ** A sample schema and sample texts

    The schema of the testable properties of the specification: [a] is the
    required primary key, [b] may occur several times, [c] is optional. *)

Definition accept_all : string -> RPSLParserMessages
    -> option string * RPSLParserMessages :=
  fun value m => (Some value, m).

Definition sample_field (pk lookup opt mult : bool) : RPSLTextField :=
  {| primary_key := pk; lookup_key := lookup; optional := opt;
     multiple := mult; clean := accept_all |}.

Definition sample_class : RPSLClass :=
  RPSLObjectMeta_init
    [("a", sample_field true true false false);
     ("b", sample_field false false true true);
     ("c", sample_field false false true false)].

(** A schema with the composite primary key [a], [b]. *)
Definition composite_class : RPSLClass :=
  RPSLObjectMeta_init
    [("a", sample_field true true false false);
     ("b", sample_field true true false false)].

Definition new_object (strict : bool) : RPSLObject :=
  {| strict_validation := strict; messages := no_messages;
     _object_data := []; cleaned_data := None |}.

Definition object_with (data : list ObjectLine) : RPSLObject :=
  {| strict_validation := true; messages := no_messages;
     _object_data := data; cleaned_data := Some ∅ |}.

(** ** Definitions used to state the properties *)

(** A field like [f] whose capability fails (yields nothing) wherever that of
    [f] yields the empty string. *)
Definition failing_on_empty (f : RPSLTextField) : RPSLTextField :=
  {| primary_key := primary_key f; lookup_key := lookup_key f;
     optional := optional f; multiple := multiple f;
     clean := fun value m =>
       match clean f value m with
       | (Some "", m') => (None, m')
       | r => r
       end |}.

Definition class_failing_on_empty (cls : RPSLClass) : RPSLClass :=
  {| fields := map (fun kf => (fst kf, failing_on_empty (snd kf))) (fields cls);
     rpsl_object_class := rpsl_object_class cls;
     pk_fields := pk_fields cls;
     lookup_fields := lookup_fields cls;
     attrs_allowed := attrs_allowed cls;
     attrs_required := attrs_required cls;
     attrs_multiple := attrs_multiple cls |}.

(** A schema whose only field [a] cleans every value to the empty string,
    after recording a warning. *)
Definition blanking_class : RPSLClass :=
  RPSLObjectMeta_init
    [("a", {| primary_key := true; lookup_key := true; optional := false;
              multiple := false;
              clean := fun _ m =>
                (Some "", {| errors := errors m;
                             warnings := warnings m ++ ["blank"] |}) |})].

(** The attribute names [_extract_attributes_values] stores for a text read
    into a new object. *)
Definition extracted_names (cls : RPSLClass) (text : string)
  : result (list string) :=
  match _extract_attributes_values cls (new_object true) text with
  | Ok o => Ok (map attr_of (_object_data o))
  | Raised e => Raised e
  end.

(** Normalisation of a value of several lines in the words of the
    specification: from every physical line the part from the first ["#"] on
    is removed, the characters accepted by [trim] are removed at both ends,
    empty results are discarded and the others joined with [","]. *)
Fixpoint without_comment (line : string) : string :=
  match line with
  | "" => ""
  | String c rest =>
      if Ascii.eqb c "#" then "" else String c (without_comment rest)
  end.

Definition normalise_lines_by (trim : ascii -> bool) (value : string)
  : string :=
  join ","
    (filter (fun line => line ≠ "")
       (map (fun line => strip_chars trim (without_comment line))
          (splitlines value))).

(** Whitespace and commas: what the specification says is trimmed. *)
Definition is_space_or_comma (c : ascii) : bool :=
  isspace c || Ascii.eqb c ",".

(** The count [Counter] holds for a name (0 when the name is absent). *)
Fixpoint counter_count (c : list (string * nat)) (name : string) : nat :=
  match c with
  | [] => 0
  | (k, n) :: rest => if String.eqb k name then n else counter_count rest name
  end.

(** Number of occurrences of a name in a list of names. *)
Definition occurrences (names : list string) (name : string) : nat :=
  length (filter (fun n => n = name) names).

(** The cardinality errors due to one name that occurs [count] times. *)
Definition cardinality_errors_for (cls : RPSLClass) (name : string)
    (count : nat) : list string :=
  (if in_list name (attrs_allowed cls) then []
   else [unrecognised_error cls name])
  ++ (if (1 <? count) && negb (in_list name (attrs_multiple cls))
      then [multiple_error cls name] else []).

(** An object with attribute lines of the given names, not yet validated. *)
Definition object_named (strict : bool) (names : list string) : RPSLObject :=
  {| strict_validation := strict; messages := no_messages;
     _object_data := map (fun n => (n, "v", [])) names;
     cleaned_data := None |}.

(** The extraction loop without the final flush: where the loop stands after
    the given lines. *)
Fixpoint run_lines (cls : RPSLClass) (o : RPSLObject) (l : locals)
    (line_no : nat) (lines : list string) : flow :=
  match lines with
  | [] => Next o l
  | line :: rest =>
      match extract_line cls o l line_no line with
      | Next o' l' => run_lines cls o' l' (S line_no) rest
      | stop => stop
      end
  end.

(** The attribute lines [_extract_attributes_values] stores for a text read
    into a new object. *)
Definition extracted_lines (cls : RPSLClass) (text : string)
  : result (list ObjectLine) :=
  match _extract_attributes_values cls (new_object true) text with
  | Ok o => Ok (_object_data o)
  | Raised e => Raised e
  end.

(** [p] holds of every character of [s]. *)
Fixpoint all_chars (p : ascii -> bool) (s : string) : bool :=
  match s with
  | "" => true
  | String c s' => p c && all_chars p s'
  end.



(** The values passed to [_update_attribute_value]. *)
Definition values_of (new_values : new_values_arg) : list string :=
  match new_values with
  | OneValue v => [v]
  | Values vs => vs
  end.



(** ** Definitions for rendering and reading back *)

Definition no_linebreak (s : string) : bool :=
  all_chars (fun c => negb (islinebreak c)) s.

(** A physical line of a value as extraction stores it: trimmed, without
    line boundary. *)
Definition clean_piece (p : string) : Prop :=
  strip p = p ∧ no_linebreak p = true.

(** An attribute name made of the characters of [a-z0-9_-]. *)
Definition is_token (name : string) : Prop :=
  name ≠ "" ∧ all_chars is_attr_name_char name = true.

(** A value made of the physical lines [pieces], with one continuation
    character per line after the first. *)
Definition value_of_pieces (value : string) (markers : list string)
    (pieces : list string) : Prop :=
  pieces ≠ [] ∧ value = join NL pieces ∧ Forall clean_piece pieces
  ∧ S (length markers) = length pieces
  ∧ Forall (fun m => m ∈ continuation_chars) markers.

Definition well_formed_line (a : ObjectLine) : Prop :=
  is_token (attr_of a)
  ∧ ∃ pieces, value_of_pieces (value_of a) (markers_of a) pieces.

Definition well_formed_locals (l : locals) : Prop :=
  match current_attr l with
  | Some name => is_token name
  | None => True
  end
  ∧ ∃ pieces,
      value_of_pieces (current_value l) (current_continuation_chars l) pieces.

(** [value] ends with a newline: its last continuation line is blank. *)
Fixpoint ends_with_newline (value : string) : bool :=
  match value with
  | "" => false
  | String c "" => Ascii.eqb c LF
  | String _ rest => ends_with_newline rest
  end.

(** The physical lines [render_rpsl_text] writes for one attribute line. *)
Definition continuation_line (marker line : string) : string :=
  marker +:+ spaces (RPSL_ATTRIBUTE_TEXT_WIDTH - 1) +:+ line.

Definition rendered_lines (a : ObjectLine) : list string :=
  let '(attr, value, markers) := a in
  match splitlines value with
  | [] => [attr +:+ ":"]
  | first :: others =>
      (ljust RPSL_ATTRIBUTE_TEXT_WIDTH (attr +:+ ":") +:+ first)
      :: zip_with continuation_line markers others
  end.

(** Each line followed by a newline. *)
Fixpoint unlines (lines : list string) : string :=
  match lines with
  | [] => ""
  | line :: rest => line +:+ NL +:+ unlines rest
  end.

(** The first character of [s], if any, is not accepted by [p]. *)
Definition head_rejected (p : ascii -> bool) (s : string) : Prop :=
  match s with
  | "" => True
  | String c _ => p c = false
  end.

(** ** Definitions for the further properties *)

(** The value and the continuation characters of an attribute line fit
    together: the value consists of trimmed physical lines joined by newlines,
    with one continuation character per line after the first. *)
Definition value_well_formed (a : ObjectLine) : Prop :=
  ∃ pieces, value_of_pieces (value_of a) (markers_of a) pieces.

Definition locals_value_well_formed (l : locals) : Prop :=
  ∃ pieces,
    value_of_pieces (current_value l) (current_continuation_chars l) pieces.

(** The value has no more physical lines than the renderer has continuation
    characters for. *)
Definition renderable (a : ObjectLine) : Prop :=
  length (splitlines (value_of a)) ≤ S (length (markers_of a)).

(** The capability of every field of [cls] returns, when it returns a value,
    the value it was given or the empty string. *)
Definition cleans_as_given (cls : RPSLClass) : Prop :=
  ∀ name field value m cleaned m',
    fields_get (fields cls) name = Some field →
    clean field value m = (Some cleaned, m') →
    cleaned = value ∨ cleaned = "".

(** Name and continuation characters of an attribute line. *)
Definition frame_of (a : ObjectLine) : string * list string :=
  (attr_of a, markers_of a).

(** The entries of [cleaned_data] are never empty and exist only for names
    that are present and whose field is cleaned. *)
Definition cleaned_entries_justified (cls : RPSLClass) (strict : bool)
    (names : list string) (cd : gmap string string) : Prop :=
  ∀ k v, cd !! k = Some v →
    v ≠ "" ∧ k ∈ names
    ∧ ∃ f, fields_get (fields cls) k = Some f
           ∧ strict || primary_key f || lookup_key f = true.


(** The capability of every field of [cls] accepts every value and returns
    it as it was given. *)
Definition accepts_as_given (cls : RPSLClass) : Prop :=
  ∀ name field value m,
    fields_get (fields cls) name = Some field →
    ∃ m', clean field value m = (Some value, m').

(** Whether the lines named [name] are cleaned: the name has a field, and
    validation is strict or the field is a primary or lookup key. *)
Definition is_cleaned (cls : RPSLClass) (strict : bool) (name : string)
  : bool :=
  match fields_get (fields cls) name with
  | Some field => strict || primary_key field || lookup_key field
  | None => false
  end.

(** The normalised values of the lines named [name], in their order, the
    empty ones left out. *)
Definition normalised_values (name : string) (data : list ObjectLine)
  : list string :=
  filter (λ v, v ≠ "")
    (map (λ a, _normalise_rpsl_value (value_of a))
       (filter (λ a, attr_of a = name) data)).

(** An entry of [cleaned_data] after further values were joined to it. *)
Definition joined_after (previous : option string) (values : list string)
  : option string :=
  match values with
  | [] => previous
  | _ =>
      match previous with
      | Some p => Some (p +:+ NL +:+ join NL values)
      | None => Some (join NL values)
      end
  end.
(** * Properties *)

(** ** Basic facts about the object setters *)

Section Setters.
Context (cls : RPSLClass).

Lemma fold_check_present_data items o :
  _object_data (fold_left (check_present cls) items o) = _object_data o
  ∧ cleaned_data (fold_left (check_present cls) items o) = cleaned_data o
  ∧ strict_validation (fold_left (check_present cls) items o)
    = strict_validation o.
Proof.
  revert o. induction items as [|[k n] items IH]; intros o; [done|].
  cbn [fold_left]. destruct (IH (check_present cls o (k, n))) as (-> & -> & ->).
  unfold check_present.
  repeat (match goal with |- context [if ?b then _ else _] => destruct b end);
    done.
Qed.

Lemma fold_check_required_data present rs o :
  _object_data (fold_left (check_required cls present) rs o) = _object_data o
  ∧ cleaned_data (fold_left (check_required cls present) rs o)
    = cleaned_data o
  ∧ strict_validation (fold_left (check_required cls present) rs o)
    = strict_validation o.
Proof.
  revert o. induction rs as [|r rs IH]; intros o; [done|].
  cbn [fold_left].
  destruct (IH (check_required cls present o r)) as (-> & -> & ->).
  unfold check_required. by destruct (negb _).
Qed.

Lemma validate_counts_data o :
  _object_data (_validate_attribute_counts cls o) = _object_data o
  ∧ cleaned_data (_validate_attribute_counts cls o) = cleaned_data o
  ∧ strict_validation (_validate_attribute_counts cls o)
    = strict_validation o.
Proof.
  unfold _validate_attribute_counts.
  destruct (fold_check_required_data
              (Counter (map attr_of (_object_data o))) (attrs_required cls)
              (fold_left (check_present cls)
                 (Counter (map attr_of (_object_data o))) o))
    as (-> & -> & ->).
  apply fold_check_present_data.
Qed.

(** With [cleaned_data] in place the cleaning loop never raises. *)
Lemma clean_line_ok o idx entry :
  is_Some (cleaned_data o) →
  ∃ o', clean_line cls o idx entry = Ok o' ∧ is_Some (cleaned_data o').
Proof.
  intros [cd Hcd]. destruct entry as [[a v] cc]. unfold clean_line.
  destruct (fields_get (fields cls) a) as [f|]; [|by eauto].
  destruct (strict_validation o || primary_key f || lookup_key f);
    [|by eauto].
  destruct (clean f (_normalise_rpsl_value v) (messages o)) as [c m].
  destruct c as [[|ch c]|]; [by eauto| |by eauto].
  destruct (negb (String.eqb _ _)); cbn [cleaned_data set_object_data
    set_messages]; rewrite Hcd; destruct (cd !! a); eauto.
Qed.

Lemma clean_loop_ok entries o idx :
  is_Some (cleaned_data o) →
  ∃ o', clean_loop cls o idx entries = Ok o' ∧ is_Some (cleaned_data o').
Proof.
  revert o idx. induction entries as [|e es IH]; intros o idx Hcd.
  - by exists o.
  - cbn [clean_loop].
    destruct (clean_line_ok o idx e Hcd) as (o1 & -> & Hcd1).
    by apply IH.
Qed.

Lemma validate_object_ok o :
  ∃ o', _validate_object cls o = Ok o' ∧ is_Some (cleaned_data o').
Proof.
  unfold _validate_object, _clean_attribute_data.
  set (o2 := if strict_validation _ then _ else _).
  assert (is_Some (cleaned_data o2)) as Hcd.
  { subst o2. destruct (strict_validation _); [|by eexists].
    destruct (validate_counts_data (set_cleaned_data o ∅)) as (_ & -> & _).
    by eexists. }
  destruct (clean_loop_ok (_object_data o2) o2 0 Hcd) as (o3 & -> & ?).
  by exists o3.
Qed.

End Setters.

(** ** The primary key *)

Lemma composite_values_ok o cd fs :
  cleaned_data o = Some cd →
  composite_values o fs = Ok (map (λ f, default "" (cd !! f)) fs).
Proof.
  intros Hcd. induction fs as [|f fs IH]; [done|].
  cbn [composite_values map]. unfold cleaned_get. by rewrite Hcd, IH.
Qed.

(** C7: for a validated object, [pk] is the upper-cased cleaned value of the
    single primary-key field (empty string when missing), and with several
    primary-key fields the upper-cased join with [","] of their cleaned
    values in declared order (empty string for each missing one).  The
    upper-cased string is given by its code points, [upper] being
    [str.upper] on every string of the model. *)
Theorem pk_of_validated_object cls o0 o :
  _validate_object cls o0 = Ok o →
  ∃ cd, cleaned_data o = Some cd ∧
    (∀ field, pk_fields cls = [field] →
       pk cls o = Ok (upper (default "" (cd !! field)))) ∧
    (length (pk_fields cls) ≠ 1 →
       pk cls o =
       Ok (upper (join "," (map (λ f, default "" (cd !! f)) (pk_fields cls))))).
Proof.
  intros Hv. destruct (validate_object_ok cls o0) as (o' & Hv' & [cd Hcd]).
  rewrite Hv in Hv'. injection Hv' as <-. exists cd. split; [done|]. split.
  - intros field Hpk. unfold pk, cleaned_get. by rewrite Hpk, Hcd.
  - intros Hlen. unfold pk.
    destruct (pk_fields cls) as [|f [|g fs]] eqn:Hpk; [| done |];
      by rewrite (composite_values_ok o cd).
Qed.

Lemma pk_of_validated_object_witness :
  _validate_object composite_class
    (object_with [("a", "foo", []); ("b", "bar", [])])
  = Ok {| strict_validation := true; messages := no_messages;
          _object_data := [("a", "foo", []); ("b", "bar", [])];
          cleaned_data := Some {[ "a" := "foo"; "b" := "bar" ]} |}
  ∧ pk composite_class
      {| strict_validation := true; messages := no_messages;
         _object_data := [("a", "foo", []); ("b", "bar", [])];
         cleaned_data := Some {[ "a" := "foo"; "b" := "bar" ]} |}
    = Ok (code_points "FOO,BAR").
Proof.
  split; [vm_compute; reflexivity|].
  destruct (pk_of_validated_object composite_class
              (object_with [("a", "foo", []); ("b", "bar", [])])
              {| strict_validation := true; messages := no_messages;
                 _object_data := [("a", "foo", []); ("b", "bar", [])];
                 cleaned_data := Some {[ "a" := "foo"; "b" := "bar" ]} |})
    as (cd & Hcd & _ & Hmany); [vm_compute; reflexivity|].
  injection Hcd as <-. rewrite Hmany; [reflexivity | vm_compute; lia].
Defined.

(** ** Raising *)

(** A new-attribute line without [":"] makes the unpacking of
    [line.split(":", maxsplit=1)] raise. *)
Lemma split1_no_sep sep s :
  contains sep s = false → split1 sep s = [s].
Proof.
  induction s as [|c s IH]; [done|]. cbn [contains split1].
  destruct (Ascii.eqb sep c); [done|]. intros H. by rewrite (IH H).
Qed.

Lemma extract_line_without_colon cls o l line_no c line :
  is_continuation (String c line) = false →
  contains ":" (String c line) = false →
  extract_line cls o l line_no (String c line) = Raise ValueError.
Proof.
  intros Hc Hcolon. unfold extract_line.
  by rewrite Hc, (split1_no_sep _ _ Hcolon).
Qed.

Lemma split1_with_sep sep s :
  contains sep s = true → ∃ a v, split1 sep s = [a; v].
Proof.
  induction s as [|c s IH]; [done|]. cbn [contains split1].
  destruct (Ascii.eqb sep c); [by eauto|].
  intros (a & v & ->)%IH. eauto.
Qed.

(** Extraction raises on no other line: when every line that starts an
    attribute contains [":"], the loop returns an object. *)
Lemma extract_loop_returns cls lines :
  Forall (λ line, line = "" ∨ is_continuation line = true
                  ∨ contains ":" line = true) lines →
  ∀ o l line_no, ∃ o', extract_loop cls o l line_no lines = Ok o'.
Proof.
  induction 1 as [|line lines Hline Hlines IH]; intros o l line_no.
  - by eexists.
  - cbn [extract_loop]. unfold extract_line.
    destruct line as [|c line]; [by eexists|].
    destruct Hline as [?|[Hc|Hc]]; [done| |].
    + rewrite Hc. cbn [negb]. apply IH.
    + destruct (negb (is_continuation _)); [|apply IH].
      destruct (split1_with_sep _ _ Hc) as (a & v & ->).
      destruct (_ && _); [by eexists | apply IH].
Qed.

(** C2: constructing an object from the text ["foo"], a line without [":"],
    does not return an object carrying messages: it raises [ValueError]. *)
Theorem init_raises_on_line_without_colon cls strict :
  RPSLObject_init cls (Some "foo") strict = Raised ValueError.
Proof. reflexivity. Qed.

(** ** [_update_attribute_value] *)

Lemma take_S_insert_at {A} i (x : A) d :
  take (S i) (list_insert_at i x d) = take i d ++ [x].
Proof.
  unfold list_insert_at. revert d.
  induction i as [|i IH]; intros [|y d]; cbn; try done.
  f_equal. apply IH.
Qed.

Lemma drop_S_insert_at {A} i (x : A) d :
  drop (S i) (list_insert_at i x d) = drop i d.
Proof.
  unfold list_insert_at. revert d.
  induction i as [|i IH]; intros [|y d]; cbn; auto.
Qed.

Lemma insert_values_closed attribute new_values :
  ∀ i data,
    insert_values attribute i new_values data =
    take i data ++ map (λ v, (attribute, v, [])) new_values ++ drop i data.
Proof.
  induction new_values as [|v vs IH]; intros i data; cbn [insert_values map].
  - by rewrite app_nil_l, take_drop.
  - rewrite IH, take_S_insert_at, drop_S_insert_at.
    by rewrite <- app_assoc.
Qed.

(** C9: [_update_attribute_value] keeps exactly the lines whose name differs
    from [attribute], in their order, puts one line with empty continuation
    characters per new value, in the given order, after the first kept line
    (the insertions are made at index 1, 2, ...; when no line is kept, an
    insertion past the end appends, and the new lines are the whole list), and
    stores the new values joined with a newline in [cleaned_data] under the
    key ["attribute"], whatever the name passed. *)
Theorem update_attribute_value_spec o cd attribute new_values :
  cleaned_data o = Some cd →
  let kept := filter (λ a, attr_of a ≠ attribute) (_object_data o) in
  let added := map (λ v, (attribute, v, [])) new_values in
  _update_attribute_value o attribute (Values new_values) =
    Ok {| strict_validation := strict_validation o;
          messages := messages o;
          _object_data := take 1 kept ++ added ++ drop 1 kept;
          cleaned_data := Some (<["attribute" := join NL new_values]> cd) |}
  ∧ (∀ first rest i v,
       kept = first :: rest → new_values !! i = Some v →
       (take 1 kept ++ added ++ drop 1 kept) !! 0 = Some first
       ∧ (take 1 kept ++ added ++ drop 1 kept) !! (1 + i)
         = Some (attribute, v, [])
       ∧ ∀ j, (take 1 kept ++ added ++ drop 1 kept)
                !! (1 + length new_values + j) = rest !! j)
  ∧ (kept = [] → take 1 kept ++ added ++ drop 1 kept = added)
  ∧ (∀ v, _update_attribute_value o attribute (OneValue v) =
          _update_attribute_value o attribute (Values [v])).
Proof.
  intros Hcd kept added. split; [|split; [|split]].
  - unfold _update_attribute_value. rewrite Hcd.
    cbn [set_cleaned_data set_object_data _object_data strict_validation
         messages cleaned_data].
    by rewrite insert_values_closed.
  - intros first rest i v Hkept Hi. rewrite Hkept.
    change (take 1 (first :: rest) ++ added ++ drop 1 (first :: rest))
      with (first :: (added ++ rest)).
    split; [done|]. split.
    + change ((first :: (added ++ rest)) !! (1 + i))
        with ((added ++ rest) !! i).
      rewrite lookup_app_l.
      * subst added. by rewrite list_lookup_fmap, Hi.
      * subst added. rewrite length_map. by eapply lookup_lt_Some.
    + intros j.
      change ((first :: (added ++ rest)) !! (1 + length new_values + j))
        with ((added ++ rest) !! (length new_values + j)).
      rewrite lookup_app_r; subst added; rewrite length_map; [|lia].
      f_equal. lia.
  - intros ->. cbn [take drop app]. by rewrite app_nil_r.
  - done.
Qed.

Lemma update_attribute_value_spec_witness :
  _update_attribute_value
    (object_with [("x", "1", []); ("remarks", "old", ["+"]); ("y", "2", [])])
    "remarks" (Values ["r1"; "r2"])
  = Ok {| strict_validation := true; messages := no_messages;
          _object_data :=
            [("x", "1", []); ("remarks", "r1", []); ("remarks", "r2", []);
             ("y", "2", [])];
          cleaned_data := Some {[ "attribute" := "r1" +:+ NL +:+ "r2" ]} |}.
Proof.
  destruct (update_attribute_value_spec
              (object_with
                 [("x", "1", []); ("remarks", "old", ["+"]); ("y", "2", [])])
              ∅ "remarks" ["r1"; "r2"] eq_refl) as [-> _].
  vm_compute. reflexivity.
Defined.

(** ** Empty cleaned values *)

Lemma fields_get_failing_on_empty fs name :
  fields_get (map (λ kf, (fst kf, failing_on_empty (snd kf))) fs) name
  = failing_on_empty <$> fields_get fs name.
Proof.
  induction fs as [|[k f] fs IH]; [done|]. cbn [map fields_get fst snd].
  by destruct (String.eqb k name).
Qed.

Lemma clean_line_failing_on_empty cls o idx entry :
  clean_line (class_failing_on_empty cls) o idx entry
  = clean_line cls o idx entry.
Proof.
  destruct entry as [[a v] cc]. unfold clean_line.
  cbn [fields class_failing_on_empty]. rewrite fields_get_failing_on_empty.
  destruct (fields_get (fields cls) a) as [f|]; [|done].
  cbn [fmap option_fmap option_map failing_on_empty primary_key lookup_key
       clean].
  destruct (strict_validation o || primary_key f || lookup_key f); [|done].
  destruct (clean f (_normalise_rpsl_value v) (messages o)) as [[[|ch c]|] m];
    done.
Qed.

Lemma clean_loop_failing_on_empty cls entries :
  ∀ o idx, clean_loop (class_failing_on_empty cls) o idx entries
           = clean_loop cls o idx entries.
Proof.
  induction entries as [|e es IH]; intros o idx; [done|].
  cbn [clean_loop]. rewrite clean_line_failing_on_empty.
  destruct (clean_line cls o idx e); [apply IH | done].
Qed.

(** C10: when the capability of the field returns the empty string for an
    occurrence, the loop body leaves [_object_data] and [cleaned_data] as they
    are and adds no message of its own (the messages are those the capability
    returned), which is exactly what it does when the capability returns
    nothing; and cleaning a whole object gives the same result as with fields
    that fail wherever the original ones return the empty string. *)
Theorem empty_cleaned_value_is_failure cls o :
  (∀ idx attr_name value continuation_chars field cleaned m,
     fields_get (fields cls) attr_name = Some field →
     strict_validation o || primary_key field || lookup_key field = true →
     clean field (_normalise_rpsl_value value) (messages o) = (cleaned, m) →
     cleaned = Some "" ∨ cleaned = None →
     clean_line cls o idx (attr_name, value, continuation_chars)
     = Ok (set_messages o m))
  ∧ _clean_attribute_data (class_failing_on_empty cls) o
    = _clean_attribute_data cls o.
Proof.
  split.
  - intros idx a v cc f c m Hf Happ Hclean Hc. unfold clean_line.
    rewrite Hf, Happ, Hclean. by destruct Hc as [-> | ->].
  - apply clean_loop_failing_on_empty.
Qed.

Lemma empty_cleaned_value_is_failure_witness :
  clean_line blanking_class (object_with [("a", "x  # y", [])]) 0
    ("a", "x  # y", [])
  = Ok (set_messages (object_with [("a", "x  # y", [])])
          {| errors := []; warnings := ["blank"] |}).
Proof.
  destruct (empty_cleaned_value_is_failure blanking_class
              (object_with [("a", "x  # y", [])])) as [Hline _].
  eapply Hline.
  - reflexivity.
  - reflexivity.
  - reflexivity.
  - left. reflexivity.
Defined.

(** ** Strings *)

Lemma append_cons c s t : String c s +:+ t = String c (s +:+ t).
Proof. reflexivity. Qed.

Lemma append_nil_l t : "" +:+ t = t.
Proof. reflexivity. Qed.

Lemma append_nil_r s : s +:+ "" = s.
Proof. induction s as [|c s IH]; [done|]. by rewrite append_cons, IH. Qed.

Lemma append_assoc s t u : (s +:+ t) +:+ u = s +:+ t +:+ u.
Proof.
  induction s as [|c s IH]; [done|]. by rewrite !append_cons, IH.
Qed.

Lemma split1_at_first_sep sep a rest :
  contains sep a = false →
  split1 sep (a +:+ String sep rest) = [a; rest].
Proof.
  induction a as [|c a IH]; intros Hc.
  - rewrite append_nil_l. cbn [split1]. by rewrite Ascii.eqb_refl.
  - rewrite append_cons. cbn [split1]. cbn [contains] in Hc.
    destruct (Ascii.eqb sep c); [done|]. by rewrite (IH Hc).
Qed.

(** ** The name of a new attribute *)

Lemma attr_name_rejects_trailing_space s :
  re_attr_name_match (s +:+ " ") = false.
Proof.
  induction s as [|c s IH]; [done|].
  rewrite append_cons. cbn [re_attr_name_match].
  destruct (is_attr_name_char c); [|done]. cbn [andb].
  rewrite IH, orb_false_r. destruct s as [|d s]; [done|].
  rewrite append_cons. unfold NL. cbn [String.eqb].
  destruct (Ascii.eqb d LF); [|done]. by destruct s.
Qed.

Lemma lower_append s t : lower (s +:+ t) = lower s +:+ lower t.
Proof.
  induction s as [|c s IH]; [done|].
  rewrite append_cons. cbn [lower]. by rewrite IH.
Qed.

Lemma extract_line_new_attribute cls o l line_no attr rest :
  contains ":" attr = false →
  is_continuation (attr +:+ ":" +:+ rest) = false →
  extract_line cls o l line_no (attr +:+ ":" +:+ rest) =
    (if negb (in_list (lower attr) (attrs_allowed cls))
        && negb (re_attr_name_match (lower attr))
     then Return (add_error (flush o l)
                    (malformed_name_error line_no (lower attr)))
     else Next (flush o l)
            {| current_attr := Some (lower attr);
               current_value := strip rest;
               current_continuation_chars := [] |}).
Proof.
  intros Hcolon Hcont. unfold extract_line. rewrite Hcont.
  change (":" +:+ rest) with (String ":" rest).
  rewrite (split1_at_first_sep _ _ _ Hcolon). cbn [negb].
  by destruct attr.
Qed.

(** C5, as amended: a new-attribute line is split at its first [":"]; the
    name is the part before it lower-cased, and not trimmed, the value the
    rest trimmed.  The name is stored unless it is rejected as malformed; a
    name followed by a space before the [":"] keeps the space, never matches
    the pattern of attribute names, and is therefore rejected unless this
    very name is among [attrs_allowed]. *)
Theorem new_attribute_line_name cls o l line_no attr rest :
  contains ":" attr = false →
  is_continuation (attr +:+ ":" +:+ rest) = false →
  extract_line cls o l line_no (attr +:+ ":" +:+ rest) =
    (if negb (in_list (lower attr) (attrs_allowed cls))
        && negb (re_attr_name_match (lower attr))
     then Return (add_error (flush o l)
                    (malformed_name_error line_no (lower attr)))
     else Next (flush o l)
            {| current_attr := Some (lower attr);
               current_value := strip rest;
               current_continuation_chars := [] |})
  ∧ ∀ token, re_attr_name_match (lower (token +:+ " ")) = false.
Proof.
  intros Hcolon Hcont. split.
  - by apply extract_line_new_attribute.
  - intros token. rewrite lower_append.
    apply attr_name_rejects_trailing_space.
Qed.

Lemma new_attribute_line_name_witness :
  extract_line sample_class (new_object true) initial_locals 0 "A : 1"
  = Return (add_error (new_object true)
              "Line 1: encountered malformed attribute name: [a ]").
Proof.
  destruct (new_attribute_line_name sample_class (new_object true)
              initial_locals 0 "A " " 1" eq_refl eq_refl) as [H _].
  exact H.
Defined.

(** C5, as stated, fails: the text ["a: 1"] stores the name ["a"], the text
    ["a : 1"] stores no name at all. *)
Lemma padded_name_counterexample :
  extracted_names sample_class "a: 1" = Ok ["a"]
  ∧ extracted_names sample_class "a : 1" = Ok []
  ∧ extracted_names sample_class "a : 1" ≠ extracted_names sample_class "a: 1".
Proof. by vm_compute. Qed.

(** ** Normalisation *)

Lemma before_hash_without_comment line :
  before_hash line = without_comment line.
Proof.
  unfold before_hash. induction line as [|c line IH]; [done|].
  cbn [split without_comment]. rewrite (Ascii.eqb_sym "#" c).
  destruct (Ascii.eqb c "#"); [done|].
  destruct (split "#" line); cbn [hd] in *; by rewrite <- IH.
Qed.

Lemma normalized_lines_filter lines :
  normalized_lines lines =
  filter (λ line, line ≠ "")
    (map (λ line, strip_chars is_nl_comma_space (without_comment line)) lines).
Proof.
  induction lines as [|line lines IH]; [done|].
  cbn [normalized_lines map]. rewrite before_hash_without_comment.
  destruct (strip_chars _ _) eqn:E.
  - rewrite filter_cons_False; [done|]. by intros H.
  - rewrite filter_cons_True; [|done]. by rewrite IH.
Qed.

(** What the branch for a value of several lines computes: from each
    physical line the part from the first ["#"] on is removed, the characters
    of [strip("\n, ")] are removed at both ends, empty results are discarded
    and the others joined with [","]; the value of the three lines of the
    specification normalises to ["192.0.2.0,-,192.0.2.1"]. *)
Lemma normalise_multi_line value :
  contains LF value = true →
  _normalise_rpsl_value value = normalise_lines_by is_nl_comma_space value
  ∧ _normalise_rpsl_value
      ("192.0.2.0 #c1" +:+ NL +:+ "- #c2" +:+ NL +:+ "192.0.2.1 #c3")
    = "192.0.2.0,-,192.0.2.1".
Proof.
  intros Hnl. split; [|reflexivity].
  unfold _normalise_rpsl_value, normalise_lines_by. rewrite Hnl. cbn [negb].
  by rewrite normalized_lines_filter.
Qed.

Lemma normalise_multi_line_witness :
  _normalise_rpsl_value (" a, #x" +:+ NL +:+ "# only" +:+ NL +:+ ",b")
  = normalise_lines_by is_nl_comma_space
      (" a, #x" +:+ NL +:+ "# only" +:+ NL +:+ ",b").
Proof.
  destruct (normalise_multi_line
              (" a, #x" +:+ NL +:+ "# only" +:+ NL +:+ ",b") eq_refl)
    as [H _].
  exact H.
Defined.

(** C8: the code does not do what the claim says: in a value of several
    lines a tab before a comment is whitespace around the line, and it is not
    trimmed, because that branch calls [strip("\n, ")].  For the two lines
    ["a<TAB>#c"] and ["b"], which extraction stores for the text
    ["a: a<TAB>#c"], ["+b"], the code gives ["a<TAB>,b"] where trimming
    whitespace and commas gives ["a,b"]; the branch for a value of one line,
    which calls [strip()], does trim the tab of ["a<TAB>#c"]. *)
Theorem normalise_multi_line_keeps_tab :
  let value := "a" +:+ String TAB "#c" +:+ NL +:+ "b" in
  contains LF value = true
  ∧ extracted_lines sample_class
      ("a: a" +:+ String TAB "#c" +:+ NL +:+ "+b") = Ok [("a", value, ["+"])]
  ∧ _normalise_rpsl_value value = "a" +:+ String TAB ",b"
  ∧ normalise_lines_by is_space_or_comma value = "a,b"
  ∧ _normalise_rpsl_value value ≠ normalise_lines_by is_space_or_comma value
  ∧ _normalise_rpsl_value ("a" +:+ String TAB "#c") = "a".
Proof. by vm_compute. Qed.

(** ** Cardinality *)

Lemma in_list_spec name l : in_list name l = true ↔ name ∈ l.
Proof.
  unfold in_list. rewrite existsb_exists. split.
  - intros (x & Hx & ->%String.eqb_eq). by apply list_elem_of_In.
  - intros H. exists name. split; [by apply list_elem_of_In|].
    apply String.eqb_refl.
Qed.

Lemma in_list_ext name l1 l2 :
  (name ∈ l1 ↔ name ∈ l2) → in_list name l1 = in_list name l2.
Proof.
  intros H. destruct (in_list name l1) eqn:E1, (in_list name l2) eqn:E2;
    try done.
  - apply in_list_spec, H, in_list_spec in E1. congruence.
  - apply in_list_spec, H, in_list_spec in E2. congruence.
Qed.

Lemma counter_add_keys name c :
  map fst (counter_add name c) =
  map fst c ++ (if in_list name (map fst c) then [] else [name]).
Proof.
  induction c as [|[k n] c IH]; [done|].
  cbn [counter_add map fst in_list existsb]. rewrite (String.eqb_sym name k).
  destruct (String.eqb k name); cbn [orb map fst app].
  - by rewrite app_nil_r.
  - f_equal. apply IH.
Qed.

Lemma counter_add_count name c k :
  counter_count (counter_add name c) k =
  counter_count c k + (if String.eqb name k then 1 else 0).
Proof.
  induction c as [|[k' n] c IH]; cbn [counter_add counter_count].
  - by destruct (String.eqb name k).
  - destruct (String.eqb k' name) eqn:E1; cbn [counter_count].
    + apply String.eqb_eq in E1 as ->.
      destruct (String.eqb name k); lia.
    + destruct (String.eqb k' k) eqn:E2; [|apply IH].
      apply String.eqb_eq in E2 as ->.
      rewrite String.eqb_sym, E1. lia.
Qed.

Lemma occurrences_cons names n name :
  occurrences (n :: names) name =
  (if String.eqb n name then 1 else 0) + occurrences names name.
Proof.
  unfold occurrences. destruct (String.eqb n name) eqn:E.
  - apply String.eqb_eq in E. by rewrite filter_cons_True.
  - apply String.eqb_neq in E. by rewrite filter_cons_False.
Qed.

Lemma fold_counter names :
  ∀ c,
    NoDup (map fst c) →
    let c' := fold_left (λ c name, counter_add name c) names c in
    NoDup (map fst c')
    ∧ (∀ k, k ∈ map fst c' ↔ k ∈ map fst c ∨ k ∈ names)
    ∧ (∀ k, counter_count c' k = counter_count c k + occurrences names k).
Proof.
  induction names as [|n names IH]; intros c Hnd; cbn [fold_left].
  - split; [done|]. split.
    + intros k. rewrite elem_of_nil. tauto.
    + intros k. unfold occurrences. cbn. lia.
  - assert (NoDup (map fst (counter_add n c))) as Hnd'.
    { rewrite counter_add_keys. destruct (in_list n (map fst c)) eqn:E.
      - by rewrite app_nil_r.
      - apply NoDup_app. split; [done|]. split; [|apply NoDup_singleton].
        intros x Hx ->%list_elem_of_singleton.
        apply in_list_spec in Hx. congruence. }
    destruct (IH _ Hnd') as (H1 & H2 & H3). split; [done|]. split.
    + intros k. rewrite H2, counter_add_keys, elem_of_cons, elem_of_app.
      destruct (in_list n (map fst c)) eqn:E.
      * apply in_list_spec in E. rewrite elem_of_nil.
        split.
        -- intros [[?|[]]|?]; auto.
        -- intros [?|[->|?]]; auto.
      * rewrite list_elem_of_singleton. tauto.
    + intros k. rewrite H3, counter_add_count, occurrences_cons.
      destruct (String.eqb n k); lia.
Qed.

Lemma counter_count_elem c k n :
  NoDup (map fst c) → (k, n) ∈ c → counter_count c k = n.
Proof.
  induction c as [|[k' n'] c IH]; intros Hnd Hin.
  - by apply elem_of_nil in Hin.
  - cbn [map fst] in Hnd. apply NoDup_cons in Hnd as [Hk' Hnd].
    cbn [counter_count]. apply elem_of_cons in Hin as [[= -> ->]|Hin].
    + by rewrite String.eqb_refl.
    + destruct (String.eqb k' k) eqn:E; [|by apply IH].
      apply String.eqb_eq in E as ->. exfalso. apply Hk'.
      apply list_elem_of_fmap. by exists (k, n).
Qed.

(** [Counter]: the distinct names, each with its number of occurrences. *)
Lemma Counter_spec names :
  NoDup (map fst (Counter names))
  ∧ (∀ k, k ∈ map fst (Counter names) ↔ k ∈ names)
  ∧ (∀ k n, (k, n) ∈ Counter names → n = occurrences names k).
Proof.
  destruct (fold_counter names [] (NoDup_nil_2)) as (H1 & H2 & H3).
  fold (Counter names) in H1, H2, H3. split; [done|]. split.
  - intros k. rewrite H2. cbn. rewrite elem_of_nil. tauto.
  - intros k n Hin. rewrite <- (counter_count_elem _ _ _ H1 Hin), H3. done.
Qed.

Section Cardinality.
Context (cls : RPSLClass).

Lemma check_present_messages o name count :
  messages (check_present cls o (name, count)) =
  {| errors := errors (messages o) ++ cardinality_errors_for cls name count;
     warnings := warnings (messages o) |}.
Proof.
  unfold check_present, cardinality_errors_for.
  destruct (in_list name (attrs_allowed cls)),
    ((1 <? count) && negb (in_list name (attrs_multiple cls)));
    cbn [negb add_error set_messages messages msg_error errors warnings app].
  - done.
  - rewrite app_nil_r. by destruct (messages o).
  - unfold msg_error. cbn [errors warnings]. by rewrite <- app_assoc.
  - done.
Qed.

Lemma fold_check_present_messages items :
  ∀ o,
    messages (fold_left (check_present cls) items o) =
    {| errors := errors (messages o)
                 ++ flat_map (λ it, cardinality_errors_for cls (fst it) (snd it))
                      items;
       warnings := warnings (messages o) |}.
Proof.
  induction items as [|[k n] items IH]; intros o; cbn [fold_left flat_map].
  - rewrite app_nil_r. by destruct (messages o).
  - rewrite IH, check_present_messages. cbn [errors warnings fst snd].
    by rewrite <- app_assoc.
Qed.

Lemma fold_check_required_messages present rs :
  ∀ o,
    messages (fold_left (check_required cls present) rs o) =
    {| errors := errors (messages o)
                 ++ map (missing_error cls)
                      (filter (λ r, in_list r (map fst present) = false) rs);
       warnings := warnings (messages o) |}.
Proof.
  induction rs as [|r rs IH]; intros o; cbn [fold_left].
  - cbn. rewrite app_nil_r. by destruct (messages o).
  - rewrite IH. unfold check_required.
    destruct (in_list r (map fst present)) eqn:E; cbn [negb].
    + rewrite filter_cons_False; [done|]. by rewrite E.
    + rewrite filter_cons_True; [|done]. cbn. by rewrite <- app_assoc.
Qed.

Lemma flat_map_counter names :
  flat_map (λ it, cardinality_errors_for cls (fst it) (snd it)) (Counter names)
  = flat_map (λ name, cardinality_errors_for cls name (occurrences names name))
      (map fst (Counter names)).
Proof.
  destruct (Counter_spec names) as (_ & _ & Hcount).
  induction (Counter names) as [|[k n] c IH]; [done|].
  cbn [flat_map map fst snd].
  rewrite (Hcount k n); [|by left]. f_equal. apply IH.
  intros k' n' Hin. apply Hcount. by right.
Qed.

Lemma filter_in_list_ext (l1 l2 rs : list string) :
  (∀ k, k ∈ l1 ↔ k ∈ l2) →
  filter (λ r, in_list r l1 = false) rs = filter (λ r, in_list r l2 = false) rs.
Proof.
  intros H. apply list_filter_iff. intros r.
  by rewrite (in_list_ext r l1 l2 (H r)).
Qed.

(** C6: under strict validation the cardinality check adds, for every
    distinct attribute name present, one "unrecognised" error if the name is
    not in [attrs_allowed] and one "occurs multiple times" error if it occurs
    more than once and is not in [attrs_multiple], then one "mandatory
    attribute missing" error for every required name that is absent; every
    violation is recorded, none hides another, and nothing else changes.
    Under non-strict validation the check is not run: validation is the
    cleaning of the attribute values alone. *)
Theorem validate_attribute_counts_errors o :
  let names := map attr_of (_object_data o) in
  (∃ present,
     NoDup present ∧ (∀ name, name ∈ present ↔ name ∈ names)
     ∧ messages (_validate_attribute_counts cls o) =
       {| errors :=
            errors (messages o)
            ++ flat_map
                 (λ name,
                    cardinality_errors_for cls name (occurrences names name))
                 present
            ++ map (missing_error cls)
                 (filter (λ r, in_list r names = false) (attrs_required cls));
          warnings := warnings (messages o) |})
  ∧ (strict_validation o = true →
     _validate_object cls o =
     _clean_attribute_data cls
       (_validate_attribute_counts cls (set_cleaned_data o ∅)))
  ∧ (strict_validation o = false →
     _validate_object cls o = _clean_attribute_data cls (set_cleaned_data o ∅)).
Proof.
  intros names. split; [|split].
  - exists (map fst (Counter names)).
    destruct (Counter_spec names) as (Hnd & Hmem & _).
    split; [done|]. split; [done|].
    unfold _validate_attribute_counts. fold names.
    rewrite fold_check_required_messages, fold_check_present_messages.
    cbn [errors warnings]. rewrite flat_map_counter, <- app_assoc.
    by rewrite (filter_in_list_ext _ names _ Hmem).
  - intros Hs. unfold _validate_object.
    cbn [strict_validation set_cleaned_data]. rewrite Hs.
    by destruct (_clean_attribute_data _ _).
  - intros Hs. unfold _validate_object.
    cbn [strict_validation set_cleaned_data]. rewrite Hs.
    by destruct (_clean_attribute_data _ _).
Qed.

End Cardinality.

(** The cardinality cases of the specification: required [a], multiple [b],
    allowed [a], [b], [c]. *)
Example cardinality_no_error :
  errors (messages (_validate_attribute_counts sample_class
                      (object_named true ["a"; "b"; "b"; "b"]))) = [].
Proof. reflexivity. Qed.

Example cardinality_missing :
  errors (messages (_validate_attribute_counts sample_class
                      (object_named true ["b"])))
  = ["Mandatory attribute a on object a is missing"].
Proof. reflexivity. Qed.

Example cardinality_twice :
  errors (messages (_validate_attribute_counts sample_class
                      (object_named true ["a"; "a"])))
  = ["Attribute a on object a occurs multiple times, but is only allowed once"].
Proof. reflexivity. Qed.

Example cardinality_all_at_once :
  errors (messages (_validate_attribute_counts sample_class
                      (object_named true ["d"; "c"; "d"; "c"])))
  = ["Unrecognised attribute d on object a";
     "Attribute d on object a occurs multiple times, but is only allowed once";
     "Attribute c on object a occurs multiple times, but is only allowed once";
     "Mandatory attribute a on object a is missing"].
Proof. reflexivity. Qed.

Lemma validate_attribute_counts_errors_witness :
  (∃ o, _validate_object sample_class (object_named true ["d"; "b"]) = Ok o
        ∧ errors (messages o) =
          ["Unrecognised attribute d on object a";
           "Mandatory attribute a on object a is missing"])
  ∧ (∃ o, _validate_object sample_class (object_named false ["d"; "b"]) = Ok o
          ∧ errors (messages o) = []).
Proof.
  destruct (validate_attribute_counts_errors sample_class
              (object_named true ["d"; "b"])) as (_ & Hstrict & _).
  destruct (validate_attribute_counts_errors sample_class
              (object_named false ["d"; "b"])) as (_ & _ & Hrelaxed).
  rewrite (Hstrict eq_refl), (Hrelaxed eq_refl).
  split; eexists; split; reflexivity.
Defined.

(** ** The extraction loop *)

Section Extraction.
Context (cls : RPSLClass).

Lemma extract_loop_run_lines lines :
  ∀ o l line_no,
    extract_loop cls o l line_no lines =
    match run_lines cls o l line_no lines with
    | Next o' l' => Ok (flush o' l')
    | Return o' => Ok o'
    | Raise e => Raised e
    end.
Proof.
  induction lines as [|line lines IH]; intros o l line_no; [done|].
  cbn [extract_loop run_lines].
  destruct (extract_line cls o l line_no line); [apply IH | done | done].
Qed.

Lemma run_lines_app pre post :
  ∀ o l line_no,
    run_lines cls o l line_no (pre ++ post) =
    match run_lines cls o l line_no pre with
    | Next o' l' => run_lines cls o' l' (line_no + length pre) post
    | stop => stop
    end.
Proof.
  induction pre as [|line pre IH]; intros o l line_no.
  - cbn. by rewrite Nat.add_0_r.
  - cbn [app run_lines length].
    destruct (extract_line cls o l line_no line); [|done|done].
    rewrite IH. by rewrite Nat.add_succ_r.
Qed.

Lemma flush_messages o l : messages (flush o l) = messages o.
Proof. unfold flush. by destruct (current_attr l) as [[|]|]. Qed.

Lemma flush_pending o l attr :
  current_attr l = Some attr → attr ≠ "" →
  _object_data (flush o l) =
  _object_data o ++ [(attr, current_value l, current_continuation_chars l)].
Proof. unfold flush. intros -> Hne. by destruct attr. Qed.

Lemma flush_not_pending o l :
  attr_pending l = false → flush o l = o.
Proof. unfold flush, attr_pending. by destruct (current_attr l) as [[|]|]. Qed.

Lemma extract_line_next_messages o l line_no line o' l' :
  extract_line cls o l line_no line = Next o' l' → messages o' = messages o.
Proof.
  unfold extract_line. destruct line as [|c line]; [done|].
  destruct (negb (is_continuation _)).
  - destruct (split1 ":" _) as [|a [|v [|]]]; try done.
    destruct (_ && _); [done|]. intros [= <- _]. apply flush_messages.
  - by intros [= <- _].
Qed.

Lemma run_lines_next_messages lines :
  ∀ o l line_no o' l',
    run_lines cls o l line_no lines = Next o' l' → messages o' = messages o.
Proof.
  induction lines as [|line lines IH]; intros o l line_no o' l'.
  - by intros [= <- _].
  - cbn [run_lines].
    destruct (extract_line cls o l line_no line) as [o1 l1| |] eqn:E;
      [|done|done].
    intros H. rewrite (IH _ _ _ _ _ H).
    by eapply extract_line_next_messages.
Qed.

(** C3, as amended: when the lines of the text up to its first empty line are
    taken without halting, extraction returns at the empty line with exactly
    one more error; the attribute lines are those completed before the empty
    line, that is the ones the lines before it yield on their own except the
    attribute immediately before the empty line, which is still pending and
    is dropped; the lines after the empty line play no part. *)
Theorem empty_line_halts o text pre post o1 l1 :
  splitlines (strip text) = pre ++ "" :: post →
  run_lines cls o initial_locals 0 pre = Next o1 l1 →
  _extract_attributes_values cls o text =
    Ok {| strict_validation := strict_validation o1;
          messages :=
            {| errors := errors (messages o)
                         ++ [empty_line_error (length pre) ""];
               warnings := warnings (messages o) |};
          _object_data := _object_data o1;
          cleaned_data := cleaned_data o1 |}
  ∧ extract_loop cls o initial_locals 0 pre = Ok (flush o1 l1)
  ∧ (∀ attr, current_attr l1 = Some attr → attr ≠ "" →
       _object_data (flush o1 l1) =
       _object_data o1
       ++ [(attr, current_value l1, current_continuation_chars l1)]).
Proof.
  intros Hlines Hpre. split; [|split].
  - unfold _extract_attributes_values.
    rewrite Hlines, extract_loop_run_lines, run_lines_app, Hpre.
    cbn [run_lines extract_line]. unfold add_error, set_messages, msg_error.
    by rewrite (run_lines_next_messages _ _ _ _ _ _ Hpre).
  - by rewrite extract_loop_run_lines, Hpre.
  - apply flush_pending.
Qed.

End Extraction.

Lemma empty_line_halts_witness :
  _extract_attributes_values sample_class (new_object true)
    ("a: 1" +:+ NL +:+ "b: 2" +:+ NL +:+ "+ 3" +:+ NL +:+ NL +:+ "c: 4")
  = Ok {| strict_validation := true;
          messages :=
            {| errors :=
                 ["Line 4: encountered empty line in the middle of object: []"];
               warnings := [] |};
          _object_data := [("a", "1", [])];
          cleaned_data := None |}.
Proof.
  destruct (empty_line_halts sample_class (new_object true)
              ("a: 1" +:+ NL +:+ "b: 2" +:+ NL +:+ "+ 3" +:+ NL +:+ NL
               +:+ "c: 4")
              ["a: 1"; "b: 2"; "+ 3"] ["c: 4"]
              {| strict_validation := true; messages := no_messages;
                 _object_data := [("a", "1", [])]; cleaned_data := None |}
              {| current_attr := Some "b";
                 current_value := "2" +:+ NL +:+ "3";
                 current_continuation_chars := ["+"] |}
              eq_refl eq_refl) as [H _].
  exact H.
Defined.

(** C3, as stated, fails: of the text ["a: 1"], empty line, ["b: 2"] the
    attribute [a] starts before the empty line, yet no attribute line is
    stored. *)
Lemma empty_line_counterexample :
  let text := "a: 1" +:+ NL +:+ NL +:+ "b: 2" in
  splitlines (strip text) = ["a: 1"; ""; "b: 2"]
  ∧ extracted_lines sample_class "a: 1" = Ok [("a", "1", [])]
  ∧ extracted_lines sample_class text = Ok []
  ∧ extracted_lines sample_class text ≠ extracted_lines sample_class "a: 1".
Proof. by vm_compute. Qed.

(** ** Newlines in strings *)

Lemma count_append c s t : count c (s +:+ t) = count c s + count c t.
Proof.
  induction s as [|d s IH]; [done|].
  rewrite append_cons. cbn [count]. rewrite IH. lia.
Qed.

Lemma count_lstrip_chars c p s : count c (lstrip_chars p s) ≤ count c s.
Proof.
  induction s as [|d s IH]; [done|]. cbn [lstrip_chars].
  destruct (p d); [|done]. cbn [count]. lia.
Qed.

Lemma count_rstrip_chars c p s : count c (rstrip_chars p s) ≤ count c s.
Proof.
  induction s as [|d s IH]; [done|]. cbn [rstrip_chars].
  destruct (rstrip_chars p s) as [|e r].
  - destruct (p d); cbn [count]; lia.
  - cbn [count] in *. lia.
Qed.

Lemma count_strip_chars c p s : count c (strip_chars p s) ≤ count c s.
Proof.
  unfold strip_chars. etrans; [apply count_rstrip_chars|].
  apply count_lstrip_chars.
Qed.


Lemma count_without_comment c s : count c (without_comment s) ≤ count c s.
Proof.
  induction s as [|d s IH]; [done|]. cbn [without_comment].
  destruct (Ascii.eqb d "#"); cbn [count]; lia.
Qed.

Lemma count_contains c s : contains c s = false ↔ count c s = 0.
Proof.
  induction s as [|d s IH]; [done|]. cbn [contains count].
  destruct (Ascii.eqb c d); [done|]. by rewrite IH.
Qed.

Lemma count_join_zero c sep l :
  count c sep = 0 → Forall (λ s, count c s = 0) l → count c (join sep l) = 0.
Proof.
  intros Hsep. induction 1 as [|s l Hs Hl IH]; [done|].
  cbn [join]. destruct l as [|s' l]; [done|].
  by rewrite !count_append, Hs, Hsep, IH.
Qed.

Lemma split1_parts sep s a v :
  split1 sep s = [a; v] → s = a +:+ String sep v.
Proof.
  revert a. induction s as [|c s IH]; intros a; [done|]. cbn [split1].
  destruct (Ascii.eqb sep c) eqn:E.
  - apply Ascii.eqb_eq in E as ->. by intros [= <- <-].
  - destruct (split1 sep s) as [|h [|h2 [|]]]; try done.
    intros [= <- <-]. rewrite append_cons. f_equal. by apply IH.
Qed.

(** The lines [splitlines] returns contain no line boundary. *)
Lemma splitlines_no_linebreak s :
  Forall (λ line, all_chars (λ c, negb (islinebreak c)) line = true)
    (splitlines s).
Proof.
  assert (∀ n s, String.length s ≤ n →
            Forall (λ line, all_chars (λ c, negb (islinebreak c)) line = true)
              (splitlines s)) as H; [|by eapply H].
  clear s. induction n as [|n IH]; intros [|c s] Hlen; cbn in Hlen;
    try (constructor || lia).
  cbn [splitlines]. destruct (islinebreak c) eqn:Ec.
  - destruct s as [|d s]; [by repeat constructor|].
    destruct (_ && _); constructor; try done; apply IH; cbn in *; lia.
  - assert (String.length s ≤ n) as Hs by lia. specialize (IH s Hs).
    destruct (splitlines s) as [|h t].
    + repeat constructor. cbn. by rewrite Ec.
    + apply Forall_cons in IH as [Hh Ht]. constructor; [|done].
      cbn. by rewrite Ec, Hh.
Qed.

Lemma all_chars_count p c s :
  p c = false → all_chars p s = true → count c s = 0.
Proof.
  intros Hc. induction s as [|d s IH]; [done|]. cbn [all_chars count].
  intros [Hd Hs]%andb_true_iff. rewrite (IH Hs).
  destruct (Ascii.eqb c d) eqn:E; [|done].
  apply Ascii.eqb_eq in E as ->. congruence.
Qed.

Lemma splitlines_no_newline s :
  Forall (λ line, count LF line = 0) (splitlines s).
Proof.
  eapply Forall_impl; [apply splitlines_no_linebreak|].
  intros line. by apply all_chars_count.
Qed.






Lemma normalized_lines_no_newline lines :
  Forall (λ line, count LF line = 0) lines →
  Forall (λ line, count LF line = 0) (normalized_lines lines).
Proof.
  induction 1 as [|line lines Hline Hlines IH]; [done|].
  cbn [normalized_lines].
  pose proof (count_strip_chars LF is_nl_comma_space (before_hash line)) as H1.
  rewrite before_hash_without_comment in *.
  pose proof (count_without_comment LF line) as H2.
  destruct (strip_chars _ _); [done|]. constructor; [lia | done].
Qed.

Lemma normalise_no_newline value :
  count LF (_normalise_rpsl_value value) = 0.
Proof.
  unfold _normalise_rpsl_value. destruct (contains LF value) eqn:E; cbn [negb].
  - apply count_join_zero; [done|].
    apply normalized_lines_no_newline, splitlines_no_newline.
  - apply count_contains in E.
    pose proof (count_strip_chars LF isspace value).
    pose proof (count_strip_chars LF isspace (before_hash value)) as H1.
    rewrite before_hash_without_comment in *.
    pose proof (count_without_comment LF value).
    unfold strip. destruct (contains "#" value); lia.
Qed.

(** ** Continuation characters and embedded newlines *)

Section MarkerInvariant.
Context (cls : RPSLClass).






End MarkerInvariant.





(** ** Rendering what was extracted *)

(** C1: the text ["a: b"] followed by the continuation line ["+"] is
    extracted without error, with the value ["b\n"] and the continuation
    character ["+"]; rendering the object gives one line only, so the
    continuation line and its character are lost, and reading the rendered
    text back gives the value ["b"] without continuation character. *)
Theorem render_loses_trailing_blank_continuation :
  let text := "a: b" +:+ NL +:+ "+" in
  ∃ o rendered,
    _extract_attributes_values sample_class (new_object true) text = Ok o
    ∧ errors (messages o) = []
    ∧ _object_data o = [("a", "b" +:+ NL, ["+"])]
    ∧ render_rpsl_text o = Ok rendered
    ∧ rendered = "a:              b" +:+ NL
    ∧ extracted_lines sample_class rendered = Ok [("a", "b", [])]
    ∧ extracted_lines sample_class rendered ≠ extracted_lines sample_class text.
Proof.
  eexists. eexists. split; [reflexivity|]. split; [reflexivity|].
  split; [reflexivity|]. split; [reflexivity|]. split; [reflexivity|].
  split; [reflexivity|]. by vm_compute.
Qed.

(** ** Trimming *)

Lemma all_chars_append p s t :
  all_chars p (s +:+ t) = all_chars p s && all_chars p t.
Proof.
  induction s as [|c s IH]; [done|].
  rewrite append_cons. cbn [all_chars]. by rewrite IH, andb_assoc.
Qed.

Lemma rstrip_chars_cons p c s :
  rstrip_chars p (String c s) =
  match rstrip_chars p s with
  | "" => if p c then "" else String c ""
  | r => String c r
  end.
Proof. reflexivity. Qed.

Lemma rstrip_chars_idem p s :
  rstrip_chars p (rstrip_chars p s) = rstrip_chars p s.
Proof.
  induction s as [|c s IH]; [done|]. rewrite rstrip_chars_cons.
  destruct (rstrip_chars p s) as [|d r] eqn:E.
  - destruct (p c) eqn:Ec; [done|]. cbn [rstrip_chars]. by rewrite Ec.
  - rewrite rstrip_chars_cons. by rewrite IH.
Qed.

Lemma lstrip_chars_head p s : head_rejected p (lstrip_chars p s).
Proof.
  induction s as [|c s IH]; [done|]. cbn [lstrip_chars].
  by destruct (p c) eqn:E.
Qed.

Lemma lstrip_chars_fixed p s : head_rejected p s → lstrip_chars p s = s.
Proof. destruct s as [|c s]; [done|]. cbn. by intros ->. Qed.

Lemma rstrip_chars_head p s :
  head_rejected p s → head_rejected p (rstrip_chars p s).
Proof.
  destruct s as [|c s]; [done|]. rewrite rstrip_chars_cons. cbn. intros Hc.
  destruct (rstrip_chars p s); [by rewrite Hc | done].
Qed.

Lemma strip_chars_idem p s :
  strip_chars p (strip_chars p s) = strip_chars p s.
Proof.
  unfold strip_chars.
  rewrite (lstrip_chars_fixed p (rstrip_chars p (lstrip_chars p s))).
  - apply rstrip_chars_idem.
  - apply rstrip_chars_head, lstrip_chars_head.
Qed.

Lemma strip_rstrip_fixed p s : strip_chars p s = s → rstrip_chars p s = s.
Proof.
  intros H. rewrite <- H at 1. unfold strip_chars.
  by rewrite rstrip_chars_idem.
Qed.


Lemma lstrip_chars_all p t s :
  all_chars p t = true → lstrip_chars p (t +:+ s) = lstrip_chars p s.
Proof.
  induction t as [|c t IH]; [done|]. cbn [all_chars].
  intros [Hc Ht]%andb_true_iff. rewrite append_cons. cbn [lstrip_chars].
  rewrite Hc. by apply IH.
Qed.

Lemma rstrip_chars_all p t :
  all_chars p t = true → rstrip_chars p t = "".
Proof.
  induction t as [|c t IH]; [done|]. cbn [all_chars].
  intros [Hc Ht]%andb_true_iff. by rewrite rstrip_chars_cons, (IH Ht), Hc.
Qed.

Lemma rstrip_chars_app_all p s t :
  all_chars p t = true → rstrip_chars p (s +:+ t) = rstrip_chars p s.
Proof.
  intros Ht. induction s as [|c s IH].
  - rewrite append_nil_l. by apply rstrip_chars_all.
  - by rewrite append_cons, !rstrip_chars_cons, IH.
Qed.

Lemma rstrip_chars_app_fixed p x v :
  rstrip_chars p v = v → v ≠ "" → rstrip_chars p (x +:+ v) = x +:+ v.
Proof.
  intros Hv Hne. induction x as [|c x IH]; [done|].
  rewrite append_cons, rstrip_chars_cons, IH.
  destruct (x +:+ v) eqn:E; [|done]. by destruct x, v.
Qed.

Lemma all_chars_spaces n : all_chars isspace (spaces n) = true.
Proof. induction n as [|n IH]; [done|]. cbn. exact IH. Qed.

Lemma strip_padded n v : strip v = v → strip (spaces n +:+ v) = v.
Proof.
  intros Hv. unfold strip, strip_chars.
  rewrite lstrip_chars_all; [exact Hv | apply all_chars_spaces].
Qed.

(** ** Lines of a text *)

Lemma splitlines_cons_line line rest :
  no_linebreak line = true →
  splitlines (line +:+ NL +:+ rest) = line :: splitlines rest.
Proof.
  induction line as [|c line IH]; intros Hline.
  - rewrite append_nil_l. unfold NL. rewrite append_cons, append_nil_l.
    cbn [splitlines islinebreak]. by destruct rest.
  - cbn [no_linebreak all_chars] in Hline.
    apply andb_true_iff in Hline as [Hc Hline].
    rewrite append_cons. cbn [splitlines].
    apply negb_true_iff in Hc. rewrite Hc. by rewrite (IH Hline).
Qed.

Lemma splitlines_single line :
  no_linebreak line = true → line ≠ "" → splitlines line = [line].
Proof.
  induction line as [|c line IH]; intros Hline Hne; [done|].
  cbn [no_linebreak all_chars] in Hline.
  apply andb_true_iff in Hline as [Hc Hline].
  cbn [splitlines]. apply negb_true_iff in Hc. rewrite Hc.
  destruct line as [|d line]; [done|]. by rewrite (IH Hline).
Qed.

Lemma join_cons sep x y l :
  join sep (x :: y :: l) = x +:+ sep +:+ join sep (y :: l).
Proof. reflexivity. Qed.

Lemma join_snoc sep l p :
  l ≠ [] → join sep (l ++ [p]) = join sep l +:+ sep +:+ p.
Proof.
  induction l as [|x l IH]; intros Hne; [done|].
  destruct l as [|y l]; [done|].
  change ((x :: y :: l) ++ [p]) with (x :: (y :: l) ++ [p]).
  change ((y :: l) ++ [p]) with (y :: (l ++ [p])) at 1.
  rewrite join_cons. change (y :: (l ++ [p])) with ((y :: l) ++ [p]).
  rewrite IH; [|done]. by rewrite join_cons, !append_assoc.
Qed.

Lemma splitlines_join lines last_line :
  Forall (λ line, no_linebreak line = true) lines →
  last lines = Some last_line → last_line ≠ "" →
  splitlines (join NL lines) = lines.
Proof.
  induction 1 as [|x l Hx Hl IH]; intros Hlast Hne; [done|].
  destruct l as [|y l].
  - cbn in Hlast. injection Hlast as ->. by apply splitlines_single.
  - rewrite join_cons, splitlines_cons_line; [|done]. f_equal. by apply IH.
Qed.

Lemma unlines_join lines :
  lines ≠ [] → unlines lines = join NL lines +:+ NL.
Proof.
  induction lines as [|x l IH]; intros Hne; [done|].
  cbn [unlines]. destruct l as [|y l]; [by rewrite append_nil_r|].
  rewrite IH; [|done]. by rewrite join_cons, !append_assoc.
Qed.

Lemma unlines_app l1 l2 : unlines (l1 ++ l2) = unlines l1 +:+ unlines l2.
Proof.
  induction l1 as [|x l1 IH]; [done|].
  cbn [app unlines]. by rewrite IH, !append_assoc.
Qed.

(** ** Characters of attribute names *)

Lemma attr_name_char_facts c :
  is_attr_name_char c = true →
  isspace c = false ∧ islinebreak c = false ∧ lower_char c = c
  ∧ Ascii.eqb ":" c = false
  ∧ ∀ s, is_continuation (String c s) = false.
Proof.
  destruct c as [[] [] [] [] [] [] [] []]; vm_compute; intros H;
    try discriminate H; repeat split.
Qed.

Lemma lower_char_linebreak c : islinebreak (lower_char c) = islinebreak c.
Proof. by destruct c as [[] [] [] [] [] [] [] []]. Qed.

Lemma is_continuation_first_char c s :
  is_continuation (String c s) = true →
  String c "" ∈ continuation_chars.
Proof.
  unfold is_continuation, continuation_chars, startswith.
  cbn [existsb String.prefix].
  repeat (destruct (ascii_dec _ c) as [<-|_]; [set_solver|]). done.
Qed.

Lemma continuation_line_facts m v :
  m ∈ continuation_chars →
  is_continuation (continuation_line m v) = true
  ∧ first_char (continuation_line m v) = m
  ∧ tail (continuation_line m v)
    = spaces (RPSL_ATTRIBUTE_TEXT_WIDTH - 1) +:+ v
  ∧ continuation_line m v ≠ "".
Proof.
  unfold continuation_chars. rewrite !elem_of_cons, elem_of_nil.
  intros [->|[->|[->|[]]]]; by repeat split.
Qed.

(** ** Names accepted by extraction *)

Lemma all_chars_impl (p q : ascii → bool) s :
  (∀ c, p c = true → q c = true) → all_chars p s = true → all_chars q s = true.
Proof.
  intros Hpq. induction s as [|c s IH]; [done|]. cbn [all_chars].
  intros [Hc Hs]%andb_true_iff. by rewrite (Hpq c Hc), (IH Hs).
Qed.

Lemma all_chars_lstrip q p s :
  all_chars q s = true → all_chars q (lstrip_chars p s) = true.
Proof.
  induction s as [|c s IH]; [done|]. cbn [lstrip_chars].
  destruct (p c); [|done]. cbn [all_chars]. intros [_ Hs]%andb_true_iff. auto.
Qed.

Lemma all_chars_rstrip q p s :
  all_chars q s = true → all_chars q (rstrip_chars p s) = true.
Proof.
  induction s as [|c s IH]; [done|]. cbn [all_chars].
  intros [Hc Hs]%andb_true_iff. rewrite rstrip_chars_cons.
  specialize (IH Hs). destruct (rstrip_chars p s) as [|d r].
  - destruct (p c); [done|]. cbn. by rewrite Hc.
  - cbn [all_chars] in *. by rewrite Hc, IH.
Qed.

Lemma no_linebreak_strip s :
  no_linebreak s = true → no_linebreak (strip s) = true.
Proof. intros H. by apply all_chars_rstrip, all_chars_lstrip. Qed.

Lemma no_linebreak_tail s :
  no_linebreak s = true → no_linebreak (tail s) = true.
Proof.
  destruct s as [|c s]; [done|]. cbn [no_linebreak all_chars tail].
  by intros [_ Hs]%andb_true_iff.
Qed.

Lemma no_linebreak_lower s : no_linebreak (lower s) = no_linebreak s.
Proof.
  unfold no_linebreak. induction s as [|c s IH]; [done|].
  cbn [lower all_chars]. by rewrite lower_char_linebreak, IH.
Qed.

Lemma token_no_linebreak s :
  all_chars is_attr_name_char s = true → no_linebreak s = true.
Proof.
  apply all_chars_impl. intros c Hc.
  destruct (attr_name_char_facts c Hc) as (_ & -> & _). done.
Qed.

Lemma token_lower s : all_chars is_attr_name_char s = true → lower s = s.
Proof.
  induction s as [|c s IH]; [done|]. cbn [all_chars lower].
  intros [Hc Hs]%andb_true_iff.
  destruct (attr_name_char_facts c Hc) as (_ & _ & -> & _). by rewrite IH.
Qed.

Lemma token_no_colon s :
  all_chars is_attr_name_char s = true → contains ":" s = false.
Proof.
  induction s as [|c s IH]; [done|]. cbn [all_chars contains].
  intros [Hc Hs]%andb_true_iff.
  destruct (attr_name_char_facts c Hc) as (_ & _ & _ & -> & _). auto.
Qed.

Lemma token_re_match s : is_token s → re_attr_name_match s = true.
Proof.
  intros [Hne Hs]. induction s as [|c s IH]; [done|].
  cbn [all_chars] in Hs. apply andb_true_iff in Hs as [Hc Hs].
  cbn [re_attr_name_match]. rewrite Hc. cbn [andb].
  destruct s as [|d s]; [done|]. rewrite IH; [|done..]. apply orb_true_r.
Qed.

Lemma re_match_token s :
  re_attr_name_match s = true → no_linebreak s = true → is_token s.
Proof.
  intros Hre Hnl. split; [by destruct s|].
  induction s as [|c s IH]; [done|].
  cbn [re_attr_name_match] in Hre. apply andb_true_iff in Hre as [Hc Hre].
  cbn [no_linebreak all_chars] in Hnl. apply andb_true_iff in Hnl as [_ Hnl].
  cbn [all_chars]. rewrite Hc. cbn [andb].
  destruct s as [|d s]; [done|].
  apply orb_true_iff in Hre as [Heq|Hre]; [|by apply IH].
  apply String.eqb_eq in Heq. by rewrite Heq in Hnl.
Qed.

(** ** What extraction stores is well formed *)

Section WellFormed.
Context (cls : RPSLClass).
Context (Hallowed : Forall (λ n, re_attr_name_match n = true)
                      (attrs_allowed cls)).

Lemma accepted_name_token name :
  no_linebreak name = true →
  negb (in_list name (attrs_allowed cls)) && negb (re_attr_name_match name)
  = false →
  is_token name.
Proof.
  intros Hnl Hacc. apply re_match_token; [|done].
  destruct (in_list name (attrs_allowed cls)) eqn:Hin.
  - apply in_list_spec in Hin. by eapply Forall_forall in Hallowed.
  - cbn [negb andb] in Hacc. by apply negb_false_iff in Hacc.
Qed.

Lemma initial_locals_well_formed : well_formed_locals initial_locals.
Proof.
  split; [done|]. exists [""]. repeat split; try done. by repeat constructor.
Qed.

Lemma flush_well_formed o l :
  Forall well_formed_line (_object_data o) → well_formed_locals l →
  Forall well_formed_line (_object_data (flush o l)).
Proof.
  intros Ho [Ha Hv]. unfold flush.
  destruct (current_attr l) as [[|c a]|]; try done.
  cbn [set_object_data _object_data]. apply Forall_app. split; [done|].
  apply Forall_singleton. by split.
Qed.

Lemma extract_line_well_formed o l line_no line :
  no_linebreak line = true →
  Forall well_formed_line (_object_data o) → well_formed_locals l →
  match extract_line cls o l line_no line with
  | Next o' l' =>
      Forall well_formed_line (_object_data o') ∧ well_formed_locals l'
  | Return o' => Forall well_formed_line (_object_data o')
  | Raise _ => True
  end.
Proof.
  intros Hline Ho Hl. unfold extract_line. destruct line as [|c line]; [done|].
  destruct (negb (is_continuation _)) eqn:Hcont.
  - destruct (split1 ":" _) as [|a [|v [|]]] eqn:Hs; try done.
    pose proof (flush_well_formed o l Ho Hl) as Hf.
    apply split1_parts in Hs. rewrite Hs in Hline. unfold no_linebreak in Hline.
    rewrite all_chars_append in Hline.
    apply andb_true_iff in Hline as [Ha Hv]. cbn [all_chars] in Hv.
    apply andb_true_iff in Hv as [_ Hv].
    destruct (_ && _) eqn:Hacc; [done|]. split; [done|]. split.
    + cbn [current_attr]. apply accepted_name_token; [|done].
      by rewrite no_linebreak_lower.
    + exists [strip v]. cbn [current_value current_continuation_chars].
      repeat split; try done. apply Forall_singleton. split.
      * apply strip_chars_idem.
      * by apply no_linebreak_strip.
  - apply negb_false_iff in Hcont. split; [done|].
    destruct Hl as [Ha (pieces & Hne & Hval & Hclean & Hlen & Hmarkers)].
    split; [done|]. exists (pieces ++ [strip (tail (String c line))]).
    cbn [current_value current_continuation_chars]. repeat split.
    + by destruct pieces.
    + rewrite join_snoc; [|done]. by rewrite Hval.
    + apply Forall_app. split; [done|]. apply Forall_singleton. split.
      * apply strip_chars_idem.
      * by apply no_linebreak_strip, no_linebreak_tail.
    + rewrite !length_app. cbn [length]. lia.
    + apply Forall_app. split; [done|]. apply Forall_singleton.
      by apply (is_continuation_first_char c line).
Qed.

Lemma extract_loop_well_formed lines :
  Forall (λ line, no_linebreak line = true) lines →
  ∀ o l line_no o',
    Forall well_formed_line (_object_data o) → well_formed_locals l →
    extract_loop cls o l line_no lines = Ok o' →
    Forall well_formed_line (_object_data o').
Proof.
  induction 1 as [|line lines Hline Hlines IH]; intros o l line_no o' Ho Hl.
  - intros [= <-]. by apply flush_well_formed.
  - cbn [extract_loop].
    pose proof (extract_line_well_formed o l line_no line Hline Ho Hl) as H.
    destruct (extract_line cls o l line_no line) as [o1 l1|o1|e]; [| |done].
    + destruct H. by eapply IH.
    + by intros [= <-].
Qed.

Lemma extracted_well_formed o text o' :
  Forall well_formed_line (_object_data o) →
  _extract_attributes_values cls o text = Ok o' →
  Forall well_formed_line (_object_data o').
Proof.
  intros Ho. apply extract_loop_well_formed; try done.
  - apply splitlines_no_linebreak.
  - apply initial_locals_well_formed.
Qed.

End WellFormed.

(** ** What [render_rpsl_text] writes *)

Lemma ends_with_newline_snoc s : ends_with_newline (s +:+ NL) = true.
Proof.
  induction s as [|c s IH]; [done|]. rewrite append_cons.
  destruct s as [|d s]; [done|]. rewrite append_cons in IH |- *. exact IH.
Qed.

Lemma join_empty pieces : join NL pieces = "" → pieces ≠ [] → pieces = [""].
Proof.
  destruct pieces as [|x [|y l]]; [done| |].
  - cbn [join]. by intros ->.
  - rewrite join_cons. by destruct x.
Qed.

Lemma clean_pieces_no_linebreak pieces :
  Forall clean_piece pieces → Forall (λ p, no_linebreak p = true) pieces.
Proof. intros H. eapply Forall_impl; [exact H|]. by intros p [_ ?]. Qed.

Lemma pieces_splitlines value markers pieces :
  value_of_pieces value markers pieces →
  ends_with_newline value = false →
  (value = "" ∧ markers = [] ∧ splitlines value = [])
  ∨ (∃ first others last_piece,
       pieces = first :: others ∧ splitlines value = pieces
       ∧ length markers = length others
       ∧ last pieces = Some last_piece ∧ last_piece ≠ "").
Proof.
  intros (Hne & Hval & Hclean & Hlen & _) Hend.
  destruct (last pieces) as [pl|] eqn:Hlast;
    [|by apply last_None in Hlast].
  destruct (decide (pl = "")) as [->|Hpl].
  - left. apply last_Some in Hlast as [ps ->].
    destruct ps as [|p ps].
    + cbn in Hval, Hlen. subst value. split; [done|]. split; [|done].
      by destruct markers.
    + rewrite join_snoc in Hval; [|done]. rewrite append_nil_r in Hval.
      rewrite Hval, ends_with_newline_snoc in Hend. done.
  - right. destruct pieces as [|first others]; [done|].
    exists first, others, pl. split; [done|]. split.
    + rewrite Hval. eapply splitlines_join; [|done..].
      by apply clean_pieces_no_linebreak.
    + split; [|done]. cbn [length] in Hlen. lia.
Qed.

Lemma render_continuations display markers others :
  ∀ i,
    length others + i ≤ length markers →
    render_value_lines display markers (S i) others =
    Ok (unlines (zip_with continuation_line (drop i markers) others)).
Proof.
  induction others as [|v others IH]; intros i Hlen.
  - cbn. by destruct (drop i markers).
  - cbn [length] in Hlen. cbn [render_value_lines].
    destruct (markers !! i) as [m|] eqn:Hm;
      [|apply lookup_ge_None in Hm; lia].
    rewrite (IH (S i)); [|lia].
    rewrite (drop_S _ _ _ Hm). cbn [zip_with unlines].
    unfold continuation_line. by rewrite !append_assoc.
Qed.

Lemma render_entry_lines a :
  length (splitlines (value_of a)) ≤ S (length (markers_of a)) →
  render_entry a = Ok (unlines (rendered_lines a)).
Proof.
  destruct a as [[attr value] markers].
  cbn [value_of markers_of fst snd render_entry rendered_lines].
  destruct (splitlines value) as [|first others]; intros Hlen.
  - cbn [unlines]. by rewrite append_nil_r, append_assoc.
  - cbn [length] in Hlen. cbn [render_value_lines].
    rewrite render_continuations; [|lia]. cbn [drop unlines].
    by rewrite !append_assoc.
Qed.

Lemma render_entries_lines entries :
  Forall (λ a, length (splitlines (value_of a)) ≤ S (length (markers_of a)))
    entries →
  render_entries entries = Ok (unlines (flat_map rendered_lines entries)).
Proof.
  induction 1 as [|a entries Ha Hes IH]; [done|].
  cbn [render_entries flat_map].
  by rewrite (render_entry_lines a Ha), IH, unlines_app.
Qed.

Lemma well_formed_line_lengths a :
  well_formed_line a → ends_with_newline (value_of a) = false →
  length (splitlines (value_of a)) ≤ S (length (markers_of a)).
Proof.
  intros [_ (pieces & Hp)] Hend.
  destruct (pieces_splitlines _ _ _ Hp Hend)
    as [(_ & _ & ->)|(first & others & pl & -> & -> & Hlen & _)].
  - cbn. lia.
  - cbn [length]. lia.
Qed.

(** ** Reading the rendered lines back *)

Section ReadBack.
Context (cls : RPSLClass).

Lemma extract_first_line o l line_no name k v :
  is_token name → strip v = v →
  extract_line cls o l line_no (name +:+ ":" +:+ spaces k +:+ v) =
  Next (flush o l)
    {| current_attr := Some name; current_value := v;
       current_continuation_chars := [] |}.
Proof.
  intros Hname Hv. pose proof (token_re_match name Hname) as Hre.
  destruct Hname as [Hne Hchars].
  rewrite extract_line_new_attribute.
  - rewrite (token_lower name Hchars), Hre, andb_false_r.
    by rewrite strip_padded.
  - by apply token_no_colon.
  - destruct name as [|c name]; [done|]. rewrite append_cons.
    cbn [all_chars] in Hchars. apply andb_true_iff in Hchars as [Hc _].
    by destruct (attr_name_char_facts c Hc) as (_ & _ & _ & _ & ->).
Qed.

Lemma extract_continuation_line o l line_no m v :
  m ∈ continuation_chars → strip v = v →
  extract_line cls o l line_no (continuation_line m v) =
  Next o {| current_attr := current_attr l;
            current_value := current_value l +:+ NL +:+ v;
            current_continuation_chars :=
              current_continuation_chars l ++ [m] |}.
Proof.
  intros Hm Hv.
  destruct (continuation_line_facts m v Hm) as (Hcont & Hfirst & Htail & Hne).
  unfold extract_line. rewrite Hcont, Hfirst, Htail. cbn [negb].
  rewrite (strip_padded _ _ Hv). by destruct (continuation_line m v).
Qed.

Lemma run_continuation_lines name others :
  ∀ markers acc seen o line_no,
    length markers = length others →
    Forall (λ m, m ∈ continuation_chars) markers →
    Forall clean_piece others →
    run_lines cls o
      {| current_attr := Some name; current_value := acc;
         current_continuation_chars := seen |}
      line_no (zip_with continuation_line markers others) =
    Next o
      {| current_attr := Some name;
         current_value := fold_left (λ a v, a +:+ NL +:+ v) others acc;
         current_continuation_chars := seen ++ markers |}.
Proof.
  induction others as [|v others IH];
    intros [|m markers] acc seen o line_no Hlen Hms Hvs; try done.
  - cbn. by rewrite app_nil_r.
  - apply Forall_cons in Hms as [Hm Hms]. apply Forall_cons in Hvs as [Hv Hvs].
    cbn [zip_with run_lines].
    rewrite extract_continuation_line; [|done|apply Hv].
    cbn [current_attr current_value current_continuation_chars].
    rewrite IH; [|by injection Hlen|done..].
    cbn [fold_left]. by rewrite <- app_assoc.
Qed.

Lemma fold_left_join others :
  ∀ first, fold_left (λ a v, a +:+ NL +:+ v) others first
           = join NL (first :: others).
Proof.
  induction others as [|v others IH] using rev_ind; intros first; [done|].
  rewrite fold_left_app, IH. cbn [fold_left].
  change (first :: others ++ [v]) with ((first :: others) ++ [v]).
  by rewrite join_snoc.
Qed.

Lemma run_rendered_lines o l line_no a :
  well_formed_line a → ends_with_newline (value_of a) = false →
  run_lines cls o l line_no (rendered_lines a) =
  Next (flush o l)
    {| current_attr := Some (attr_of a); current_value := value_of a;
       current_continuation_chars := markers_of a |}.
Proof.
  destruct a as [[name value] markers].
  unfold well_formed_line. cbn [attr_of value_of markers_of fst snd].
  intros [Hname (pieces & Hp)] Hend.
  destruct (pieces_splitlines _ _ _ Hp Hend)
    as [(-> & -> & Hlines)|(first & others & pl & -> & Hlines & Hlen & _)];
    unfold rendered_lines; rewrite Hlines.
  - cbn [run_lines].
    change (name +:+ ":") with (name +:+ ":" +:+ spaces 0 +:+ "").
    by rewrite (extract_first_line o l line_no name 0 "" Hname).
  - destruct Hp as (_ & Hval & Hclean & _ & Hmarkers).
    apply Forall_cons in Hclean as [[Hfirst _] Hclean].
    cbn [run_lines]. unfold ljust. rewrite !append_assoc.
    rewrite extract_first_line; [|done..].
    rewrite run_continuation_lines; [|done..].
    by rewrite fold_left_join, <- Hval.
Qed.

Lemma flush_line o name value markers :
  name ≠ "" →
  flush o {| current_attr := Some name; current_value := value;
             current_continuation_chars := markers |}
  = set_object_data o (_object_data o ++ [(name, value, markers)]).
Proof. intros Hne. unfold flush. by destruct name. Qed.

Lemma extract_loop_rendered entries :
  Forall well_formed_line entries →
  Forall (λ a, ends_with_newline (value_of a) = false) entries →
  ∀ o l line_no,
    extract_loop cls o l line_no (flat_map rendered_lines entries) =
    Ok (set_object_data (flush o l) (_object_data (flush o l) ++ entries)).
Proof.
  induction 1 as [|a entries Ha Hes IH]; intros Hends o l line_no.
  - cbn [flat_map extract_loop]. rewrite app_nil_r. by destruct (flush o l).
  - apply Forall_cons in Hends as [Hend Hends]. cbn [flat_map].
    rewrite extract_loop_run_lines, run_lines_app, run_rendered_lines;
      [|done..].
    rewrite <- extract_loop_run_lines, (IH Hends).
    destruct a as [[name value] markers]. destruct Ha as [[Hne _] _].
    cbn [attr_of value_of markers_of fst snd] in *.
    rewrite (flush_line _ _ _ _ Hne).
    cbn [set_object_data _object_data strict_validation messages cleaned_data].
    by rewrite <- app_assoc.
Qed.

End ReadBack.

(** ** The rendered text *)

Lemma splitlines_unlines_last lines last_line :
  Forall (λ line, no_linebreak line = true) lines →
  no_linebreak last_line = true → last_line ≠ "" →
  splitlines (unlines lines +:+ last_line) = lines ++ [last_line].
Proof.
  intros Hlines Hlast Hne. induction Hlines as [|x lines Hx Hlines IH].
  - by apply splitlines_single.
  - cbn [unlines app]. rewrite !append_assoc.
    rewrite splitlines_cons_line; [|done]. by rewrite IH.
Qed.

Lemma strip_unlines lines last_line :
  head_rejected isspace (unlines (lines ++ [last_line])) →
  rstrip_chars isspace last_line = last_line → last_line ≠ "" →
  strip (unlines (lines ++ [last_line])) = unlines lines +:+ last_line.
Proof.
  intros Hhead Hlast Hne. unfold strip, strip_chars.
  rewrite (lstrip_chars_fixed _ _ Hhead), unlines_app. cbn [unlines].
  rewrite append_nil_r, <- !append_assoc.
  rewrite rstrip_chars_app_all; [|done]. by apply rstrip_chars_app_fixed.
Qed.

Lemma no_linebreak_spaces n : no_linebreak (spaces n) = true.
Proof. induction n as [|n IH]; [done|]. exact IH. Qed.

Lemma no_linebreak_append s t :
  no_linebreak (s +:+ t) = no_linebreak s && no_linebreak t.
Proof. apply all_chars_append. Qed.

Lemma no_linebreak_continuation_lines markers others :
  Forall (λ m, m ∈ continuation_chars) markers →
  Forall clean_piece others →
  Forall (λ line, no_linebreak line = true)
    (zip_with continuation_line markers others).
Proof.
  intros Hms. revert others.
  induction Hms as [|m markers Hm Hms IH]; intros others Hvs; [done|].
  destruct Hvs as [|v others [_ Hv] Hvs]; [done|].
  cbn [zip_with]. constructor; [|by apply IH].
  unfold continuation_line.
  rewrite !no_linebreak_append, Hv, no_linebreak_spaces, !andb_true_r.
  unfold continuation_chars in Hm. rewrite !elem_of_cons, elem_of_nil in Hm.
  by destruct Hm as [->|[->|[->|[]]]].
Qed.

Lemma rendered_lines_shape a :
  well_formed_line a → ends_with_newline (value_of a) = false →
  Forall (λ line, no_linebreak line = true) (rendered_lines a)
  ∧ (∃ c s others, rendered_lines a = String c s :: others
                   ∧ isspace c = false)
  ∧ (∃ before last_line,
        rendered_lines a = before ++ [last_line]
        ∧ rstrip_chars isspace last_line = last_line ∧ last_line ≠ "").
Proof.
  destruct a as [[name value] markers].
  unfold well_formed_line. cbn [attr_of value_of markers_of fst snd].
  intros [[Hne Hchars] (pieces & Hp)] Hend.
  pose proof (token_no_linebreak name Hchars) as Hname.
  destruct name as [|c name]; [done|].
  assert (isspace c = false) as Hc.
  { cbn [all_chars] in Hchars. apply andb_true_iff in Hchars as [Hc _].
    by destruct (attr_name_char_facts c Hc) as (-> & _). }
  destruct (pieces_splitlines _ _ _ Hp Hend)
    as [(-> & -> & Hlines)
       |(first & others & pl & -> & Hlines & Hlen & Hlast & Hpl)];
    unfold rendered_lines; rewrite Hlines.
  - split; [|split].
    + apply Forall_singleton. by rewrite no_linebreak_append, Hname.
    + by exists c, (name +:+ ":"), [].
    + exists [], (String c name +:+ ":"). split; [done|]. split; [|done].
      by apply rstrip_chars_app_fixed.
  - destruct Hp as (_ & _ & Hclean & _ & Hmarkers).
    apply Forall_cons in Hclean as [[Hfirst Hfirst_nl] Hclean].
    split; [|split].
    + constructor; [|by apply no_linebreak_continuation_lines].
      unfold ljust.
      by rewrite !no_linebreak_append, Hname, Hfirst_nl, no_linebreak_spaces.
    + unfold ljust. rewrite !append_cons. eauto.
    + destruct others as [|v others].
      * destruct markers; [|done]. cbn in Hlast. injection Hlast as ->.
        eexists [], _. split; [done|]. split.
        -- apply rstrip_chars_app_fixed; [|done].
           by apply strip_rstrip_fixed.
        -- unfold ljust. by rewrite !append_cons.
      * change (last (first :: v :: others)) with (last (v :: others))
          in Hlast.
        apply last_Some in Hlast as [ot Hot]. rewrite Hot in *.
        destruct markers as [|ml mt _] using rev_ind.
        { rewrite length_app in Hlen. cbn in Hlen. lia. }
        rewrite !length_app in Hlen. cbn [length] in Hlen.
        rewrite zip_with_app; [|lia]. cbn [zip_with].
        eexists (_ :: zip_with continuation_line mt ot), _.
        split; [done|].
        apply Forall_app in Hclean as [_ [[Hpl_strip _] _]%Forall_cons].
        unfold continuation_line. rewrite <- append_assoc. split.
        -- apply rstrip_chars_app_fixed; [|done].
           by apply strip_rstrip_fixed.
        -- intros H. by destruct ml.
Qed.

Lemma rendered_text_lines entries :
  Forall well_formed_line entries →
  Forall (λ a, ends_with_newline (value_of a) = false) entries →
  splitlines (strip (unlines (flat_map rendered_lines entries)))
  = flat_map rendered_lines entries.
Proof.
  intros Hwf Hends.
  destruct entries as [|a0 entries0] eqn:Hentries; [done|].
  rewrite <- Hentries in *.
  assert (Forall (λ line, no_linebreak line = true)
            (flat_map rendered_lines entries)) as Hnl.
  { clear Hentries. induction Hwf as [|a es Ha Hes IH]; [done|].
    apply Forall_cons in Hends as [Hend Hends]. cbn [flat_map].
    apply Forall_app. split; [|by apply IH].
    by destruct (rendered_lines_shape a Ha Hend). }
  assert (head_rejected isspace (unlines (flat_map rendered_lines entries)))
    as Hhead.
  { rewrite Hentries in Hwf, Hends |- *.
    apply Forall_cons in Hwf as [Ha _]. apply Forall_cons in Hends as [Hend _].
    destruct (rendered_lines_shape a0 Ha Hend)
      as (_ & (c & s & others & Hshape & Hc) & _).
    cbn [flat_map]. rewrite Hshape. exact Hc. }
  assert (∃ before last_line,
            flat_map rendered_lines entries = before ++ [last_line]
            ∧ rstrip_chars isspace last_line = last_line ∧ last_line ≠ "")
    as (before & last_line & Hshape & Hlast & Hne).
  { assert (entries ≠ []) as Hnonempty by by rewrite Hentries.
    clear Hentries Hnl Hhead.
    destruct entries as [|a es _] using rev_ind; [done|].
    apply Forall_app in Hwf as [_ [Ha _]%Forall_cons].
    apply Forall_app in Hends as [_ [Hend _]%Forall_cons].
    destruct (rendered_lines_shape a Ha Hend)
      as (_ & _ & (before & last_line & Hshape & Hlast)).
    exists (flat_map rendered_lines es ++ before), last_line.
    split; [|done].
    rewrite flat_map_app. cbn [flat_map].
    by rewrite app_nil_r, Hshape, app_assoc. }
  rewrite Hshape in Hnl, Hhead |- *.
  apply Forall_app in Hnl as [Hbefore [Hlast_nl _]%Forall_cons].
  rewrite strip_unlines; [|done..]. by apply splitlines_unlines_last.
Qed.

(** X1: the round trip that holds: when the names of [attrs_allowed] match
    the pattern of attribute names and no stored value ends with a blank
    continuation line, rendering the lines extracted from a text and
    extracting the rendered text gives the same attribute lines. *)
Theorem render_then_extract cls text o :
  Forall (λ n, re_attr_name_match n = true) (attrs_allowed cls) →
  _extract_attributes_values cls (new_object true) text = Ok o →
  Forall (λ a, ends_with_newline (value_of a) = false) (_object_data o) →
  ∃ rendered,
    render_rpsl_text o = Ok rendered
    ∧ extracted_lines cls rendered = Ok (_object_data o).
Proof.
  intros Hallowed Hextract Hends.
  assert (Forall well_formed_line (_object_data o)) as Hwf.
  { by eapply (extracted_well_formed cls Hallowed (new_object true)). }
  exists (unlines (flat_map rendered_lines (_object_data o))). split.
  - unfold render_rpsl_text. apply render_entries_lines.
    apply Forall_forall. intros a Ha. apply well_formed_line_lengths.
    + by eapply Forall_forall in Hwf.
    + by eapply Forall_forall in Hends.
  - unfold extracted_lines, _extract_attributes_values.
    rewrite rendered_text_lines; [|done..].
    by rewrite extract_loop_rendered.
Qed.

Lemma render_then_extract_witness :
  ∃ rendered,
    render_rpsl_text
      {| strict_validation := true; messages := no_messages;
         _object_data :=
           [("a", "1" +:+ NL +:+ NL +:+ "2", ["+"; " "]); ("b", "", [])];
         cleaned_data := None |} = Ok rendered
    ∧ extracted_lines sample_class rendered
      = Ok [("a", "1" +:+ NL +:+ NL +:+ "2", ["+"; " "]); ("b", "", [])].
Proof.
  apply (render_then_extract sample_class
           ("A:1" +:+ NL +:+ "+" +:+ NL +:+ "  2 " +:+ NL +:+ "b:")).
  - by repeat constructor.
  - reflexivity.
  - by repeat constructor.
Defined.

(** ** The builtins and the cases of the specification, evaluated *)

Example splitlines_examples :
  splitlines ("ab" +:+ NL +:+ "cd" +:+ NL) = ["ab"; "cd"]
  ∧ splitlines "" = []
  ∧ splitlines NL = [""]
  ∧ splitlines ("a" +:+ String CR NL +:+ NL +:+ "b") = ["a"; ""; "b"].
Proof. by repeat split. Qed.

Example strip_examples :
  strip ("  a b" +:+ String TAB NL) = "a b"
  ∧ strip_chars is_nl_comma_space " , a,b ," = "a,b".
Proof. by repeat split. Qed.

Example replace_examples :
  replace "aa" "b" "aaa" = "ba"
  ∧ replace "" "-" "abc" = "-a-b-c-"
  ∧ replace "ab" "xyz" "cabab" = "cxyzxyz".
Proof. by repeat split. Qed.

Example attr_name_pattern_examples :
  re_attr_name_match "mnt-by" = true
  ∧ re_attr_name_match ("mnt-by" +:+ NL) = true
  ∧ re_attr_name_match "" = false
  ∧ re_attr_name_match "Mnt" = false
  ∧ re_attr_name_match ("a" +:+ NL +:+ "b") = false.
Proof. by repeat split. Qed.

Example pk_single_field :
  pk sample_class
    {| strict_validation := true; messages := no_messages;
       _object_data := []; cleaned_data := Some {[ "a" := "mixedCase" ]} |}
  = Ok (code_points "MIXEDCASE").
Proof. reflexivity. Qed.

Example pk_missing_field :
  pk composite_class
    {| strict_validation := true; messages := no_messages;
       _object_data := []; cleaned_data := Some {[ "b" := "bar" ]} |}
  = Ok (code_points ",BAR").
Proof. reflexivity. Qed.

(** Upper-casing can leave the code points below 256: the micro sign, the
    sharp s and y with diaeresis. *)
Example pk_upper_case_above_255 :
  pk sample_class
    {| strict_validation := true; messages := no_messages;
       _object_data := [];
       cleaned_data :=
         Some {[ "a" := String "181" (String "m" (String " "
                          (String "255" (String "223" "")))) ]} |}
  = Ok [924%N; 77%N; 32%N; 376%N; 83%N; 83%N].
Proof. reflexivity. Qed.

(** A new value of two lines has no continuation character, and rendering
    the object afterwards raises. *)
Example render_after_update_raises :
  render_rpsl_text
    {| strict_validation := true; messages := no_messages;
       _object_data :=
         [("x", "1", []); ("remarks", "r1" +:+ NL +:+ "r2", [])];
       cleaned_data := Some ∅ |}
  = Raised IndexError.
Proof. reflexivity. Qed.

(** A continuation line before the first attribute is dropped without
    error. *)
Example leading_continuation_dropped :
  extracted_lines sample_class ("+x" +:+ NL +:+ "a: 1") = Ok [("a", "1", [])].
Proof. reflexivity. Qed.

(** * Further properties of the parser *)

(** ** When extraction raises *)

Lemma extract_loop_raises cls lines :
  ∀ o l line_no e,
    extract_loop cls o l line_no lines = Raised e →
    e = ValueError
    ∧ Exists (λ line, line ≠ "" ∧ is_continuation line = false
                      ∧ contains ":" line = false) lines.
Proof.
  induction lines as [|line lines IH]; intros o l line_no e; [done|].
  cbn [extract_loop]. unfold extract_line.
  destruct line as [|c line]; [done|].
  destruct (is_continuation (String c line)) eqn:Hcont; cbn [negb].
  - intros H. destruct (IH _ _ _ _ H) as [-> Hex]. split; [done|].
    by apply Exists_cons_tl.
  - destruct (contains ":" (String c line)) eqn:Hcolon.
    + destruct (split1_with_sep _ _ Hcolon) as (a & v & ->).
      destruct (_ && _); [done|].
      intros H. destruct (IH _ _ _ _ H) as [-> Hex]. split; [done|].
      by apply Exists_cons_tl.
    + rewrite (split1_no_sep _ _ Hcolon). intros [= <-]. split; [done|].
      by apply Exists_cons_hd.
Qed.

(** X2: [_extract_attributes_values] returns an object whenever every line of
    the trimmed text that is neither empty nor a continuation line contains a
    [":"]; the only exception it ever raises is [ValueError], and then some
    line that starts an attribute has no [":"]. *)
Theorem extraction_raises_only_without_colon cls o text :
  (Forall (λ line, line = "" ∨ is_continuation line = true
                   ∨ contains ":" line = true) (splitlines (strip text)) →
   ∃ o', _extract_attributes_values cls o text = Ok o')
  ∧ (∀ e, _extract_attributes_values cls o text = Raised e →
          e = ValueError
          ∧ Exists (λ line, line ≠ "" ∧ is_continuation line = false
                            ∧ contains ":" line = false)
              (splitlines (strip text))).
Proof.
  split.
  - intros H. by apply extract_loop_returns.
  - intros e. apply extract_loop_raises.
Qed.

Lemma extraction_raises_only_without_colon_witness :
  ∃ o', _extract_attributes_values sample_class (new_object true)
          ("a: 1" +:+ NL +:+ "+ 2" +:+ NL +:+ "?: 3" +:+ NL +:+ "b: 4")
        = Ok o'.
Proof.
  destruct (extraction_raises_only_without_colon sample_class
              (new_object true)
              ("a: 1" +:+ NL +:+ "+ 2" +:+ NL +:+ "?: 3" +:+ NL +:+ "b: 4"))
    as [Hreturns _].
  apply Hreturns. vm_compute.
  repeat (constructor; [auto|]). constructor.
Defined.

(** ** What extraction changes of the object *)

Lemma flush_appends o l :
  ∃ new, length new ≤ 1
         ∧ flush o l = set_object_data o (_object_data o ++ new).
Proof.
  unfold flush. destruct (current_attr l) as [[|c a]|].
  - exists (@nil ObjectLine). rewrite app_nil_r. split; [cbn; lia|].
    by destruct o.
  - eexists [_]. split; [cbn; lia|]. done.
  - exists (@nil ObjectLine). rewrite app_nil_r. split; [cbn; lia|].
    by destruct o.
Qed.

Lemma extract_loop_appends cls lines :
  ∀ o l line_no o',
    extract_loop cls o l line_no lines = Ok o' →
    ∃ new errs,
      length errs ≤ 1
      ∧ o' = {| strict_validation := strict_validation o;
                messages := {| errors := errors (messages o) ++ errs;
                               warnings := warnings (messages o) |};
                _object_data := _object_data o ++ new;
                cleaned_data := cleaned_data o |}.
Proof.
  induction lines as [|line lines IH]; intros o l line_no o'.
  - cbn [extract_loop]. intros [= <-].
    destruct (flush_appends o l) as (new & _ & ->).
    exists new, (@nil string). split; [cbn; lia|]. rewrite app_nil_r.
    by destruct o as [s [es ws] d c].
  - cbn [extract_loop]. unfold extract_line. destruct line as [|c line].
    + intros [= <-]. exists (@nil ObjectLine), [empty_line_error line_no ""].
      split; [cbn; lia|]. rewrite app_nil_r. by destruct o.
    + destruct (negb (is_continuation _)).
      * destruct (split1 ":" _) as [|a [|v [|]]]; try done.
        destruct (flush_appends o l) as (new & _ & ->).
        destruct (_ && _).
        -- intros [= <-]. eexists new, [_]. split; [cbn; lia|]. done.
        -- intros H. destruct (IH _ _ _ _ H) as (new' & errs & Hlen & ->).
           exists (new ++ new'), errs. split; [done|].
           cbn [set_object_data _object_data strict_validation messages
                cleaned_data]. by rewrite app_assoc.
      * apply IH.
Qed.

(** X3: [_extract_attributes_values] only appends: the attribute lines held
    before stay in front, in place, at most one error is added to the
    messages, and the warnings, [cleaned_data] and the strictness are left as
    they are. *)
Theorem extraction_only_appends cls o text o' :
  _extract_attributes_values cls o text = Ok o' →
  ∃ new errs,
    length errs ≤ 1
    ∧ _object_data o' = _object_data o ++ new
    ∧ errors (messages o') = errors (messages o) ++ errs
    ∧ warnings (messages o') = warnings (messages o)
    ∧ cleaned_data o' = cleaned_data o
    ∧ strict_validation o' = strict_validation o.
Proof.
  intros H. apply extract_loop_appends in H as (new & errs & Hlen & ->).
  by exists new, errs.
Qed.

Lemma extraction_only_appends_witness :
  ∃ (new : list ObjectLine) (errs : list string),
    length errs ≤ 1
    ∧ _object_data (object_with [("a", "1", []); ("b", "2", [])])
      = _object_data (object_with [("a", "1", [])]) ++ new
    ∧ errors (messages (object_with [("a", "1", []); ("b", "2", [])]))
      = errors (messages (object_with [("a", "1", [])])) ++ errs.
Proof.
  destruct (extraction_only_appends sample_class
              (object_with [("a", "1", [])]) "b: 2"
              (object_with [("a", "1", []); ("b", "2", [])]) eq_refl)
    as (new & errs & H1 & H2 & H3 & _).
  by exists new, errs.
Defined.

(** ** Whitespace and letter case that do not matter *)

Lemma lstrip_chars_all_empty p t :
  all_chars p t = true → lstrip_chars p t = "".
Proof.
  induction t as [|c t IH]; [done|]. cbn [all_chars lstrip_chars].
  intros [-> Ht]%andb_true_iff. auto.
Qed.

Lemma strip_chars_app_all p s t :
  all_chars p t = true → strip_chars p (s +:+ t) = strip_chars p s.
Proof.
  intros Ht. unfold strip_chars. induction s as [|c s IH].
  - rewrite append_nil_l. by rewrite (lstrip_chars_all_empty p t Ht).
  - rewrite append_cons. cbn [lstrip_chars]. destruct (p c); [exact IH|].
    rewrite <- append_cons. by apply rstrip_chars_app_all.
Qed.

Lemma strip_chars_surrounded p t1 s t2 :
  all_chars p t1 = true → all_chars p t2 = true →
  strip_chars p (t1 +:+ s +:+ t2) = strip_chars p s.
Proof.
  intros H1 H2. rewrite <- (strip_chars_app_all p s t2 H2).
  unfold strip_chars. by rewrite lstrip_chars_all.
Qed.

(** X4: whitespace (blank lines included) before and after the text is not
    significant: [_extract_attributes_values] gives the same result with and
    without it. *)
Theorem extraction_ignores_surrounding_whitespace cls o before text after :
  all_chars isspace before = true → all_chars isspace after = true →
  _extract_attributes_values cls o (before +:+ text +:+ after)
  = _extract_attributes_values cls o text.
Proof.
  intros Hb Ha. unfold _extract_attributes_values, strip.
  by rewrite strip_chars_surrounded.
Qed.

Lemma extraction_ignores_surrounding_whitespace_witness :
  _extract_attributes_values sample_class (new_object true)
    ((NL +:+ " " +:+ NL) +:+ "a: 1" +:+ (NL +:+ NL))
  = _extract_attributes_values sample_class (new_object true) "a: 1".
Proof.
  apply (extraction_ignores_surrounding_whitespace sample_class
           (new_object true) (NL +:+ " " +:+ NL) "a: 1" (NL +:+ NL));
    reflexivity.
Defined.

Lemma prefix_one_char a c s :
  String.prefix (String a "") (String c s)
  = if ascii_dec a c then true else false.
Proof.
  cbn [String.prefix]. destruct (ascii_dec a c); [|done]. by destruct s.
Qed.

Lemma is_continuation_head c s s' :
  is_continuation (String c s) = is_continuation (String c s').
Proof.
  unfold is_continuation, continuation_chars, startswith.
  cbn [existsb]. by rewrite !prefix_one_char.
Qed.

Lemma lower_char_facts c :
  lower_char (lower_char c) = lower_char c
  ∧ Ascii.eqb ":" (lower_char c) = Ascii.eqb ":" c
  ∧ ∀ s s', is_continuation (String (lower_char c) s)
            = is_continuation (String c s').
Proof.
  split; [|split].
  - by destruct c as [[] [] [] [] [] [] [] []].
  - by destruct c as [[] [] [] [] [] [] [] []].
  - intros s s'.
    rewrite (is_continuation_head _ s ""), (is_continuation_head c s' "").
    by destruct c as [[] [] [] [] [] [] [] []].
Qed.

Lemma lower_idem s : lower (lower s) = lower s.
Proof.
  induction s as [|c s IH]; [done|]. cbn [lower].
  destruct (lower_char_facts c) as (-> & _). by rewrite IH.
Qed.

Lemma contains_colon_lower s : contains ":" (lower s) = contains ":" s.
Proof.
  induction s as [|c s IH]; [done|]. cbn [lower contains].
  destruct (lower_char_facts c) as (_ & -> & _). by rewrite IH.
Qed.

Lemma is_continuation_attr_line attr rest rest' :
  is_continuation (attr +:+ ":" +:+ rest)
  = is_continuation (attr +:+ ":" +:+ rest').
Proof.
  destruct attr as [|c attr]; [done|]. rewrite !append_cons.
  apply is_continuation_head.
Qed.

(** X5: attribute names are read without regard to letter case: a line that
    starts an attribute is treated exactly like the same line with its name
    in lower case. *)
Theorem attribute_name_case_insensitive cls o l line_no attr rest :
  contains ":" attr = false →
  is_continuation (attr +:+ ":" +:+ rest) = false →
  extract_line cls o l line_no (attr +:+ ":" +:+ rest)
  = extract_line cls o l line_no (lower attr +:+ ":" +:+ rest).
Proof.
  intros Hcolon Hcont.
  rewrite !extract_line_new_attribute; try done.
  - by rewrite lower_idem.
  - by rewrite contains_colon_lower.
  - destruct attr as [|c attr]; [done|].
    cbn [lower]. rewrite append_cons in Hcont |- *.
    destruct (lower_char_facts c) as (_ & _ & Hc).
    by rewrite (Hc _ (attr +:+ ":" +:+ rest)).
Qed.

Lemma attribute_name_case_insensitive_witness :
  extract_line sample_class (new_object true) initial_locals 0 "Mnt-By: X"
  = extract_line sample_class (new_object true) initial_locals 0 "mnt-by: X".
Proof.
  apply (attribute_name_case_insensitive sample_class (new_object true)
           initial_locals 0 "Mnt-By" " X"); reflexivity.
Defined.

(** X6: whitespace around the data of a line is not significant: after the
    [":"] of a line that starts an attribute, and after the continuation
    character of a continuation line, the data may be surrounded by any
    whitespace without changing what the line does. *)
Theorem line_data_whitespace_insignificant cls o l line_no before data after :
  all_chars isspace before = true → all_chars isspace after = true →
  (∀ attr,
     contains ":" attr = false →
     is_continuation (attr +:+ ":" +:+ data) = false →
     extract_line cls o l line_no
       (attr +:+ ":" +:+ before +:+ data +:+ after)
     = extract_line cls o l line_no (attr +:+ ":" +:+ data))
  ∧ (∀ c,
       String c "" ∈ continuation_chars →
       extract_line cls o l line_no (String c (before +:+ data +:+ after))
       = extract_line cls o l line_no (String c data)).
Proof.
  intros Hb Ha. split.
  - intros attr Hcolon Hcont. rewrite !extract_line_new_attribute; try done.
    + unfold strip. by rewrite strip_chars_surrounded.
    + by rewrite (is_continuation_attr_line attr _ data).
  - intros c Hc. unfold extract_line.
    rewrite (is_continuation_head c _ ""), (is_continuation_head c data "").
    cbn [tail first_char]. unfold strip.
    rewrite strip_chars_surrounded; [|done..].
    unfold continuation_chars in Hc. rewrite !elem_of_cons, elem_of_nil in Hc.
    by destruct Hc as [[= ->]|[[= ->]|[[= ->]|[]]]].
Qed.

Lemma line_data_whitespace_insignificant_witness :
  extract_line sample_class (new_object true) initial_locals 0
    ("a" +:+ ":" +:+ "   " +:+ "1 2" +:+ String TAB "")
  = extract_line sample_class (new_object true) initial_locals 0
      ("a" +:+ ":" +:+ "1 2").
Proof.
  destruct (line_data_whitespace_insignificant sample_class (new_object true)
              initial_locals 0 "   " "1 2" (String TAB "") eq_refl eq_refl)
    as [Hattr _].
  apply (Hattr "a"); reflexivity.
Defined.

(** ** When rendering raises *)

Lemma render_continuations_raise display markers others :
  ∀ i,
    i ≤ length markers → length markers < length others + i →
    render_value_lines display markers (S i) others = Raised IndexError.
Proof.
  induction others as [|v others IH]; intros i Hi Hlen.
  - cbn in Hlen. lia.
  - cbn [length] in Hlen. cbn [render_value_lines].
    destruct (markers !! i) as [m|] eqn:Hm; [|done].
    apply lookup_lt_Some in Hm. rewrite IH; [done|lia..].
Qed.

Lemma render_entry_raises a :
  ¬ renderable a → render_entry a = Raised IndexError.
Proof.
  destruct a as [[attr value] markers]. unfold renderable.
  cbn [value_of markers_of fst snd render_entry].
  destruct (splitlines value) as [|first others]; intros Hlen.
  - cbn in Hlen. lia.
  - cbn [length] in Hlen. cbn [render_value_lines].
    rewrite render_continuations_raise; [done|lia..].
Qed.

Lemma renderable_dec a : Decision (renderable a).
Proof. unfold renderable. apply _. Defined.

Lemma render_entries_raise entries :
  ¬ Forall renderable entries → render_entries entries = Raised IndexError.
Proof.
  induction entries as [|a entries IH]; intros Hnot.
  - by destruct Hnot.
  - cbn [render_entries]. destruct (renderable_dec a) as [Ha|Ha].
    + rewrite (render_entry_lines a Ha), IH; [done|].
      intros H. apply Hnot. by constructor.
    + by rewrite (render_entry_raises a Ha).
Qed.

(** X7: [render_rpsl_text] returns exactly when no value has more physical
    lines than its attribute line has continuation characters for (one per
    line after the first); the text is then made of the rendered lines, each
    followed by a newline.  Otherwise it raises [IndexError]. *)
Theorem render_returns_iff_renderable o :
  (Forall renderable (_object_data o) →
   render_rpsl_text o = Ok (unlines (flat_map rendered_lines (_object_data o))))
  ∧ (¬ Forall renderable (_object_data o) →
     render_rpsl_text o = Raised IndexError).
Proof.
  split.
  - apply render_entries_lines.
  - apply render_entries_raise.
Qed.

Lemma render_returns_iff_renderable_witness :
  render_rpsl_text (object_with [("a", "1" +:+ NL +:+ "2", [])])
  = Raised IndexError.
Proof.
  destruct (render_returns_iff_renderable
              (object_with [("a", "1" +:+ NL +:+ "2", [])])) as [_ Hraise].
  apply Hraise. intros H. apply Forall_cons in H as [H _].
  vm_compute in H. lia.
Defined.

(** ** Rendering what extraction stored *)

Lemma splitlines_join_length pieces :
  Forall (λ p, no_linebreak p = true) pieces →
  length (splitlines (join NL pieces)) ≤ length pieces.
Proof.
  induction 1 as [|x l Hx Hl IH]; [done|]. destruct l as [|y l].
  - cbn [join length]. destruct x as [|c x]; [cbn; lia|].
    by rewrite splitlines_single.
  - rewrite join_cons, splitlines_cons_line; [|done]. cbn [length] in *. lia.
Qed.

Lemma value_well_formed_renderable a : value_well_formed a → renderable a.
Proof.
  intros (pieces & _ & Hval & Hclean & Hlen & _). unfold renderable.
  rewrite Hval, Hlen. apply splitlines_join_length.
  by apply clean_pieces_no_linebreak.
Qed.

Section ValueWellFormed.
Context (cls : RPSLClass).

Lemma flush_value_well_formed o l :
  Forall value_well_formed (_object_data o) → locals_value_well_formed l →
  Forall value_well_formed (_object_data (flush o l)).
Proof.
  intros Ho Hl. unfold flush. destruct (current_attr l) as [[|c a]|]; try done.
  cbn [set_object_data _object_data]. apply Forall_app. split; [done|].
  by apply Forall_singleton.
Qed.

Lemma extract_line_value_well_formed o l line_no line :
  no_linebreak line = true →
  Forall value_well_formed (_object_data o) → locals_value_well_formed l →
  match extract_line cls o l line_no line with
  | Next o' l' =>
      Forall value_well_formed (_object_data o') ∧ locals_value_well_formed l'
  | Return o' => Forall value_well_formed (_object_data o')
  | Raise _ => True
  end.
Proof.
  intros Hline Ho Hl. unfold extract_line. destruct line as [|c line]; [done|].
  destruct (negb (is_continuation _)) eqn:Hcont.
  - destruct (split1 ":" _) as [|a [|v [|]]] eqn:Hs; try done.
    pose proof (flush_value_well_formed o l Ho Hl) as Hf.
    apply split1_parts in Hs. rewrite Hs in Hline.
    rewrite no_linebreak_append in Hline.
    apply andb_true_iff in Hline as [_ Hv].
    cbn [no_linebreak all_chars] in Hv. apply andb_true_iff in Hv as [_ Hv].
    destruct (_ && _); [done|]. split; [done|].
    exists [strip v]. cbn [current_value current_continuation_chars].
    repeat split; try done. apply Forall_singleton. split.
    + apply strip_chars_idem.
    + by apply no_linebreak_strip.
  - apply negb_false_iff in Hcont. split; [done|].
    destruct Hl as (pieces & Hne & Hval & Hclean & Hlen & Hmarkers).
    exists (pieces ++ [strip (tail (String c line))]).
    cbn [current_value current_continuation_chars]. repeat split.
    + by destruct pieces.
    + rewrite join_snoc; [|done]. by rewrite Hval.
    + apply Forall_app. split; [done|]. apply Forall_singleton. split.
      * apply strip_chars_idem.
      * by apply no_linebreak_strip, no_linebreak_tail.
    + rewrite !length_app. cbn [length]. lia.
    + apply Forall_app. split; [done|]. apply Forall_singleton.
      by apply (is_continuation_first_char c line).
Qed.

Lemma extract_loop_value_well_formed lines :
  Forall (λ line, no_linebreak line = true) lines →
  ∀ o l line_no o',
    Forall value_well_formed (_object_data o) → locals_value_well_formed l →
    extract_loop cls o l line_no lines = Ok o' →
    Forall value_well_formed (_object_data o').
Proof.
  induction 1 as [|line lines Hline Hlines IH]; intros o l line_no o' Ho Hl.
  - intros [= <-]. by apply flush_value_well_formed.
  - cbn [extract_loop].
    pose proof (extract_line_value_well_formed o l line_no line Hline Ho Hl)
      as H.
    destruct (extract_line cls o l line_no line) as [o1 l1|o1|e]; [| |done].
    + destruct H. by eapply IH.
    + by intros [= <-].
Qed.

End ValueWellFormed.

(** X8: an object whose attribute lines all come from extraction can always
    be rendered: for every text, schema and strictness, [render_rpsl_text]
    returns a text after [_extract_attributes_values] on a new object. *)
Theorem render_after_extraction_returns cls strict text o :
  _extract_attributes_values cls (new_object strict) text = Ok o →
  ∃ rendered, render_rpsl_text o = Ok rendered.
Proof.
  intros Hextract. eexists. apply render_entries_lines.
  eapply Forall_impl; [|apply value_well_formed_renderable].
  eapply (extract_loop_value_well_formed cls); [| | |exact Hextract].
  - apply splitlines_no_linebreak.
  - constructor.
  - exists [""]. repeat split; try done. by apply Forall_singleton.
Qed.

Lemma render_after_extraction_returns_witness :
  ∃ rendered,
    render_rpsl_text
      {| strict_validation := false; messages := no_messages;
         _object_data := [("a", "b" +:+ NL, ["+"])]; cleaned_data := None |}
    = Ok rendered.
Proof.
  apply (render_after_extraction_returns sample_class false
           ("a: b" +:+ NL +:+ "+")).
  reflexivity.
Defined.

(** ** What validation changes of the attribute lines *)

Section Cleaning.
Context (cls : RPSLClass).

Lemma clean_line_frames o idx entry o' :
  map frame_of (_object_data o) !! idx = Some (frame_of entry) →
  clean_line cls o idx entry = Ok o' →
  map frame_of (_object_data o') = map frame_of (_object_data o).
Proof.
  intros Hidx. destruct entry as [[a v] cc]. unfold clean_line.
  destruct (fields_get (fields cls) a) as [f|]; [|by intros [= <-]].
  destruct (strict_validation o || primary_key f || lookup_key f);
    [|by intros [= <-]].
  destruct (clean f (_normalise_rpsl_value v) (messages o)) as [c m].
  destruct c as [[|ch c]|]; [by intros [= <-]| |by intros [= <-]].
  assert (map frame_of
            (_object_data
               (if negb (String.eqb (String ch c) (_normalise_rpsl_value v))
                then set_object_data (set_messages o m)
                       (<[idx := (a, replace (_normalise_rpsl_value v)
                                       (String ch c) v, cc)]>
                          (_object_data (set_messages o m)))
                else set_messages o m))
          = map frame_of (_object_data o)) as H.
  { destruct (negb _); [|done]. cbn [set_object_data set_messages _object_data].
    rewrite list_fmap_insert. by apply list_insert_id. }
  destruct (cleaned_data _) as [cd|]; [|done].
  destruct (cd !! a); by intros [= <-].
Qed.

Lemma clean_loop_frames entries :
  ∀ o idx o',
    map frame_of entries = drop idx (map frame_of (_object_data o)) →
    clean_loop cls o idx entries = Ok o' →
    map frame_of (_object_data o') = map frame_of (_object_data o).
Proof.
  induction entries as [|e es IH]; intros o idx o' Hdrop.
  - by intros [= <-].
  - cbn [clean_loop]. cbn [map] in Hdrop.
    assert (map frame_of (_object_data o) !! idx = Some (frame_of e)) as Hidx.
    { rewrite <- (Nat.add_0_r idx), <- lookup_drop, <- Hdrop. done. }
    destruct (clean_line cls o idx e) as [o1|] eqn:E; [|done].
    pose proof (clean_line_frames o idx e o1 Hidx E) as H1.
    intros H. rewrite (IH o1 (S idx) o'); [done| |done].
    rewrite H1. rewrite (drop_S _ _ _ Hidx) in Hdrop. by injection Hdrop.
Qed.

Lemma clean_line_strict o idx entry o' :
  clean_line cls o idx entry = Ok o' →
  strict_validation o' = strict_validation o.
Proof.
  destruct entry as [[a v] cc]. unfold clean_line.
  destruct (fields_get (fields cls) a) as [f|]; [|by intros [= <-]].
  destruct (strict_validation o || primary_key f || lookup_key f);
    [|by intros [= <-]].
  destruct (clean f (_normalise_rpsl_value v) (messages o)) as [c m].
  destruct c as [[|ch c]|]; [by intros [= <-]| |by intros [= <-]].
  destruct (negb _); cbn [cleaned_data set_object_data set_messages];
    destruct (cleaned_data o) as [cd|]; try done;
    destruct (cd !! a); by intros [= <-].
Qed.

Lemma clean_line_cleaned names o idx entry o' cd :
  attr_of entry ∈ names →
  cleaned_data o = Some cd →
  cleaned_entries_justified cls (strict_validation o) names cd →
  clean_line cls o idx entry = Ok o' →
  ∃ cd', cleaned_data o' = Some cd'
         ∧ cleaned_entries_justified cls (strict_validation o) names cd'.
Proof.
  intros Hin Hcd Hjust. destruct entry as [[a v] cc].
  cbn [attr_of fst] in Hin. unfold clean_line.
  destruct (fields_get (fields cls) a) as [f|] eqn:Hf;
    [|intros [= <-]; eauto].
  destruct (strict_validation o || primary_key f || lookup_key f) eqn:Happ;
    [|intros [= <-]; eauto].
  destruct (clean f (_normalise_rpsl_value v) (messages o)) as [c m].
  destruct c as [[|ch c]|]; [intros [= <-]; eauto| |intros [= <-]; eauto].
  assert (cleaned_data
            (if negb (String.eqb (String ch c) (_normalise_rpsl_value v))
             then set_object_data (set_messages o m)
                    (<[idx := (a, replace (_normalise_rpsl_value v)
                                    (String ch c) v, cc)]>
                       (_object_data (set_messages o m)))
             else set_messages o m) = Some cd) as ->.
  { by destruct (negb _). }
  destruct (cd !! a) as [previous|] eqn:Hprev; intros [= <-];
    cbn [cleaned_data set_cleaned_data]; eexists; (split; [done|]);
    intros k w; rewrite lookup_insert; case_decide as Hk.
  - intros [= <-]. subst k. split; [by destruct previous|]. eauto.
  - apply Hjust.
  - intros [= <-]. subst k. split; [done|]. eauto.
  - apply Hjust.
Qed.

Lemma clean_loop_cleaned names entries :
  Forall (λ e, attr_of e ∈ names) entries →
  ∀ o idx o' cd,
    cleaned_data o = Some cd →
    cleaned_entries_justified cls (strict_validation o) names cd →
    clean_loop cls o idx entries = Ok o' →
    ∃ cd', cleaned_data o' = Some cd'
           ∧ cleaned_entries_justified cls (strict_validation o) names cd'.
Proof.
  induction 1 as [|e es He Hes IH]; intros o idx o' cd Hcd Hjust.
  - intros [= <-]. eauto.
  - cbn [clean_loop]. destruct (clean_line cls o idx e) as [o1|] eqn:E; [|done].
    destruct (clean_line_cleaned names o idx e o1 cd He Hcd Hjust E)
      as (cd1 & Hcd1 & Hjust1).
    rewrite <- (clean_line_strict o idx e o1 E) in Hjust1 |- *.
    by eapply IH.
Qed.

End Cleaning.

Lemma validate_object_clean_loop cls o o' :
  _validate_object cls o = Ok o' →
  ∃ start,
    clean_loop cls start 0 (_object_data o) = Ok o'
    ∧ _object_data start = _object_data o
    ∧ cleaned_data start = Some ∅
    ∧ strict_validation start = strict_validation o.
Proof.
  unfold _validate_object, _clean_attribute_data.
  cbn [strict_validation set_cleaned_data].
  set (start := if strict_validation o then _ else _).
  assert (_object_data start = _object_data o
          ∧ cleaned_data start = Some ∅
          ∧ strict_validation start = strict_validation o) as (H1 & H2 & H3).
  { subst start. destruct (strict_validation o) eqn:Hs; [|done].
    destruct (validate_counts_data cls (set_cleaned_data o ∅))
      as (-> & -> & ->). done. }
  rewrite H1. destruct (clean_loop cls start 0 (_object_data o)) eqn:E; [|done].
  intros [= <-]. by exists start.
Qed.

(** X9: validation never adds, removes or reorders attribute lines and never
    touches a name or a continuation character: after [_validate_object] the
    lines have the names and the continuation characters they had, in the
    same order; only values can have been rewritten. *)
Theorem validation_keeps_names_and_markers cls o :
  ∃ o', _validate_object cls o = Ok o'
        ∧ map attr_of (_object_data o') = map attr_of (_object_data o)
        ∧ map markers_of (_object_data o') = map markers_of (_object_data o)
        ∧ length (_object_data o') = length (_object_data o).
Proof.
  destruct (validate_object_ok cls o) as (o' & Hv & _). exists o'.
  split; [done|].
  destruct (validate_object_clean_loop cls o o' Hv) as (start & Hloop & Hd & _).
  rewrite <- Hd in Hloop |- *.
  pose proof (clean_loop_frames cls (_object_data start) start 0 o' eq_refl
                Hloop) as Hframes.
  split; [|split].
  - transitivity (map fst (map frame_of (_object_data o')));
      [by rewrite map_map|]. rewrite Hframes. by rewrite map_map.
  - transitivity (map snd (map frame_of (_object_data o')));
      [by rewrite map_map|]. rewrite Hframes. by rewrite map_map.
  - by rewrite <- (length_map frame_of), Hframes, length_map.
Qed.

(** X10: after [_validate_object] no entry of [cleaned_data] is the empty
    string, and there is an entry only for a name that occurs among the
    attribute lines and has a field in the schema which is cleaned: any field
    under strict validation, a primary or lookup key otherwise. *)
Theorem cleaned_data_entries cls o :
  ∃ o' cd,
    _validate_object cls o = Ok o' ∧ cleaned_data o' = Some cd
    ∧ ∀ name value,
        cd !! name = Some value →
        value ≠ ""
        ∧ name ∈ map attr_of (_object_data o)
        ∧ ∃ field,
            fields_get (fields cls) name = Some field
            ∧ strict_validation o || primary_key field || lookup_key field
              = true.
Proof.
  destruct (validate_object_ok cls o) as (o' & Hv & _).
  destruct (validate_object_clean_loop cls o o' Hv)
    as (start & Hloop & Hd & Hcd & Hs).
  destruct (clean_loop_cleaned cls (map attr_of (_object_data o))
              (_object_data o)) with (o := start) (idx := 0) (o' := o')
              (cd := (∅ : gmap string string))
    as (cd' & Hcd' & Hjust); try done.
  - apply Forall_forall. intros e He. apply list_elem_of_fmap. by exists e.
  - rewrite Hs in Hjust. by exists o', cd'.
Qed.

Lemma cleaned_data_entries_witness :
  "v" ≠ ""
  ∧ "a" ∈ map attr_of (_object_data (object_named false ["a"; "b"]))
  ∧ ∃ field,
      fields_get (fields sample_class) "a" = Some field
      ∧ strict_validation (object_named false ["a"; "b"])
        || primary_key field || lookup_key field = true.
Proof.
  destruct (cleaned_data_entries sample_class (object_named false ["a"; "b"]))
    as (o' & cd & Hv & Hcd & Hentries).
  vm_compute in Hv. injection Hv as <-. injection Hcd as <-.
  apply (Hentries "a" "v"). reflexivity.
Defined.

Lemma clean_line_as_given cls o idx entry o' :
  cleans_as_given cls →
  clean_line cls o idx entry = Ok o' →
  _object_data o' = _object_data o.
Proof.
  intros Hcls. destruct entry as [[a v] cc]. unfold clean_line.
  destruct (fields_get (fields cls) a) as [f|] eqn:Hf; [|by intros [= <-]].
  destruct (strict_validation o || primary_key f || lookup_key f);
    [|by intros [= <-]].
  destruct (clean f (_normalise_rpsl_value v) (messages o)) as [c m] eqn:Hc.
  destruct c as [[|ch c]|]; [by intros [= <-]| |by intros [= <-]].
  destruct (Hcls _ _ _ _ _ _ Hf Hc) as [Heq|Heq]; [|done].
  rewrite Heq, String.eqb_refl. cbn [negb cleaned_data set_messages].
  destruct (cleaned_data o) as [cd|]; [|done].
  destruct (cd !! a); by intros [= <-].
Qed.

Lemma clean_loop_as_given cls entries :
  cleans_as_given cls →
  ∀ o idx o',
    clean_loop cls o idx entries = Ok o' → _object_data o' = _object_data o.
Proof.
  intros Hcls. induction entries as [|e es IH]; intros o idx o'.
  - by intros [= <-].
  - cbn [clean_loop]. destruct (clean_line cls o idx e) as [o1|] eqn:E; [|done].
    intros H. rewrite (IH _ _ _ H). by eapply clean_line_as_given.
Qed.

(** X11: when the capabilities of the fields return the normalised value they
    are given (or the empty string, or nothing), validation leaves every
    attribute line exactly as it was: the stored raw values, comments and
    layout included, are never rewritten. *)
Theorem validation_keeps_lines_as_given cls o :
  cleans_as_given cls →
  ∃ o', _validate_object cls o = Ok o' ∧ _object_data o' = _object_data o.
Proof.
  intros Hcls. destruct (validate_object_ok cls o) as (o' & Hv & _). exists o'.
  split; [done|].
  destruct (validate_object_clean_loop cls o o' Hv) as (start & Hloop & Hd & _).
  rewrite <- Hd. by eapply clean_loop_as_given.
Qed.

Lemma fields_get_elem fs name f :
  fields_get fs name = Some f → (name, f) ∈ fs.
Proof.
  induction fs as [|[k g] fs IH]; [done|]. cbn [fields_get].
  destruct (String.eqb k name) eqn:E.
  - apply String.eqb_eq in E as ->. intros [= ->]. by left.
  - intros H. right. by apply IH.
Qed.

Lemma sample_class_cleans_as_given : cleans_as_given sample_class.
Proof.
  intros name field value m cleaned m' Hf Hc. left.
  apply fields_get_elem in Hf. cbn in Hf.
  rewrite !elem_of_cons, elem_of_nil in Hf.
  destruct Hf as [[= _ ->]|[[= _ ->]|[[= _ ->]|[]]]];
    cbn in Hc; by injection Hc as <- _.
Qed.

Lemma validation_keeps_lines_as_given_witness :
  ∃ o', _validate_object sample_class
          (object_with [("a", "x  # y" +:+ NL +:+ " z", ["+"])]) = Ok o'
        ∧ _object_data o' = [("a", "x  # y" +:+ NL +:+ " z", ["+"])].
Proof.
  apply (validation_keeps_lines_as_given sample_class
           (object_with [("a", "x  # y" +:+ NL +:+ " z", ["+"])])).
  apply sample_class_cleans_as_given.
Defined.

(** ** When the cardinality check passes *)

Lemma flat_map_nil {A B} (f : A → list B) l :
  flat_map f l = [] ↔ Forall (λ x, f x = []) l.
Proof.
  induction l as [|x l IH]; cbn [flat_map]; [by split|].
  rewrite Forall_cons, <- IH. split.
  - by intros [? ?]%app_eq_nil.
  - by intros [-> ->].
Qed.

Lemma filter_nil_iff {A} (P : A → Prop) `{∀ x, Decision (P x)} l :
  filter P l = [] ↔ Forall (λ x, ¬ P x) l.
Proof.
  induction l as [|x l IH]; [by split|].
  rewrite Forall_cons, <- IH. destruct (decide (P x)) as [Hx|Hx].
  - rewrite filter_cons_True; [|done]. split; [done|]. by intros [? _].
  - rewrite filter_cons_False; [|done]. tauto.
Qed.

Lemma map_nil_iff {A B} (f : A → B) l : map f l = [] ↔ l = [].
Proof. by destruct l. Qed.

Lemma validate_counts_messages cls o :
  messages (_validate_attribute_counts cls o) =
  {| errors :=
       errors (messages o)
       ++ flat_map
            (λ name,
               cardinality_errors_for cls name
                 (occurrences (map attr_of (_object_data o)) name))
            (map fst (Counter (map attr_of (_object_data o))))
       ++ map (missing_error cls)
            (filter (λ r, in_list r (map attr_of (_object_data o)) = false)
               (attrs_required cls));
     warnings := warnings (messages o) |}.
Proof.
  destruct (Counter_spec (map attr_of (_object_data o))) as (_ & Hmem & _).
  unfold _validate_attribute_counts.
  rewrite fold_check_required_messages, fold_check_present_messages.
  cbn [errors warnings]. rewrite flat_map_counter, <- app_assoc.
  by rewrite (filter_in_list_ext _ (map attr_of (_object_data o)) _ Hmem).
Qed.

(** X12: [_validate_attribute_counts] only appends errors to the messages,
    and it appends none exactly when every attribute name present is allowed,
    every name that occurs more than once may occur several times, and every
    required name is present. *)
Theorem cardinality_check_passes_iff cls o :
  let names := map attr_of (_object_data o) in
  ∃ added,
    messages (_validate_attribute_counts cls o) =
      {| errors := errors (messages o) ++ added;
         warnings := warnings (messages o) |}
    ∧ (added = []
       ↔ (∀ name, name ∈ names → in_list name (attrs_allowed cls) = true)
         ∧ (∀ name, name ∈ names → 1 < occurrences names name →
                    in_list name (attrs_multiple cls) = true)
         ∧ (∀ name, name ∈ attrs_required cls → name ∈ names)).
Proof.
  intros names. rewrite validate_counts_messages. fold names.
  destruct (Counter_spec names) as (_ & Hmem & _).
  eexists. split; [reflexivity|].
  rewrite app_nil.
  rewrite flat_map_nil, map_nil_iff, filter_nil_iff, !Forall_forall.
  split.
  - intros [H1 H2]. split; [|split].
    + intros name Hin%Hmem%H1. unfold cardinality_errors_for in Hin.
      by destruct (in_list name (attrs_allowed cls)).
    + intros name Hin%Hmem%H1 Hocc. unfold cardinality_errors_for in Hin.
      apply app_eq_nil in Hin as [_ Hin].
      apply Nat.ltb_lt in Hocc. rewrite Hocc in Hin.
      by destruct (in_list name (attrs_multiple cls)).
    + intros r Hr%H2. apply in_list_spec.
      by destruct (in_list r names).
  - intros (H1 & H2 & H3). split.
    + intros name Hin%Hmem.
      unfold cardinality_errors_for. rewrite (H1 name Hin). cbn [app].
      destruct (1 <? occurrences names name) eqn:Hocc; [|done].
      apply Nat.ltb_lt in Hocc. by rewrite (H2 name Hin Hocc).
    + intros r Hr%H3%in_list_spec. by rewrite Hr.
Qed.

Lemma cardinality_check_passes_iff_witness :
  messages (_validate_attribute_counts sample_class
              (object_named true ["a"; "b"; "b"]))
  = messages (object_named true ["a"; "b"; "b"]).
Proof.
  destruct (cardinality_check_passes_iff sample_class
              (object_named true ["a"; "b"; "b"])) as (added & -> & [_ Hnil]).
  rewrite Hnil; [reflexivity|].
  change (map attr_of (_object_data (object_named true ["a"; "b"; "b"])))
    with ["a"; "b"; "b"].
  change (attrs_allowed sample_class) with ["a"; "b"; "c"].
  change (attrs_multiple sample_class) with ["b"].
  change (attrs_required sample_class) with ["a"].
  split; [|split]; intros name; rewrite !elem_of_cons, elem_of_nil.
  - by intros [->|[->|[->|[]]]].
  - intros [->|[->|[->|[]]]]; try reflexivity. vm_compute. lia.
  - intros [->|[]]. by left.
Defined.

(** ** What a normalised value looks like *)

Lemma count_hash_without_comment s : count "#" (without_comment s) = 0.
Proof.
  induction s as [|c s IH]; [done|]. cbn [without_comment].
  destruct (Ascii.eqb c "#") eqn:E; [done|]. cbn [count].
  rewrite (Ascii.eqb_sym "#" c), E. by rewrite IH.
Qed.

Lemma normalized_lines_no_hash lines :
  Forall (λ line, count "#" line = 0) (normalized_lines lines).
Proof.
  rewrite normalized_lines_filter. apply Forall_forall.
  intros line [_ Hin]%list_elem_of_filter.
  apply list_elem_of_fmap in Hin as (raw & -> & _).
  pose proof (count_strip_chars "#" is_nl_comma_space (without_comment raw)).
  pose proof (count_hash_without_comment raw). lia.
Qed.

Lemma normalise_no_hash value :
  count "#" (_normalise_rpsl_value value) = 0.
Proof.
  unfold _normalise_rpsl_value.
  destruct (contains LF value) eqn:Hnl; cbn [negb].
  - apply count_join_zero; [done|]. apply normalized_lines_no_hash.
  - destruct (contains "#" value) eqn:Hh.
    + rewrite before_hash_without_comment.
      pose proof (count_strip_chars "#" isspace (without_comment value)).
      pose proof (count_hash_without_comment value). unfold strip. lia.
    + apply count_contains in Hh.
      pose proof (count_strip_chars "#" isspace value). unfold strip. lia.
Qed.

(** X13: a normalised value is one line without a comment: whatever the
    value, the result of [_normalise_rpsl_value] contains neither a newline
    nor a ["#"]. *)
Theorem normalised_value_one_line_no_comment value :
  contains LF (_normalise_rpsl_value value) = false
  ∧ contains "#" (_normalise_rpsl_value value) = false.
Proof.
  split; apply count_contains.
  - apply normalise_no_newline.
  - apply normalise_no_hash.
Qed.

Lemma contains_append c s t :
  contains c (s +:+ t) = contains c s || contains c t.
Proof.
  induction s as [|d s IH]; [by rewrite append_nil_l|].
  rewrite append_cons. cbn [contains]. by destruct (Ascii.eqb c d).
Qed.

Lemma without_comment_append s t :
  without_comment (s +:+ "#" +:+ t) = without_comment s.
Proof.
  induction s as [|c s IH]; [by rewrite append_nil_l|].
  rewrite append_cons. cbn [without_comment].
  destruct (Ascii.eqb c "#"); [done|]. by rewrite IH.
Qed.

Lemma without_comment_no_hash s :
  contains "#" s = false → without_comment s = s.
Proof.
  induction s as [|c s IH]; [done|]. cbn [contains without_comment].
  rewrite (Ascii.eqb_sym "#" c). destruct (Ascii.eqb c "#"); [done|].
  intros H. by rewrite IH.
Qed.

(** X14: in a value of one line the comment is not significant: appending
    ["#"] and any text without a newline does not change the normalised
    value. *)
Theorem normalise_ignores_trailing_comment value comment :
  contains LF value = false → contains LF comment = false →
  _normalise_rpsl_value (value +:+ "#" +:+ comment)
  = _normalise_rpsl_value value.
Proof.
  intros Hv Hc. unfold _normalise_rpsl_value.
  rewrite !contains_append, Hv, Hc. cbn [contains Ascii.eqb orb negb].
  replace (contains "#" "#") with true by reflexivity.
  rewrite orb_true_r, !before_hash_without_comment, without_comment_append.
  destruct (contains "#" value) eqn:Hh; [done|].
  by rewrite without_comment_no_hash.
Qed.

Lemma normalise_ignores_trailing_comment_witness :
  _normalise_rpsl_value (" 192.0.2.0/24 " +:+ "#" +:+ " remark # more")
  = _normalise_rpsl_value " 192.0.2.0/24 ".
Proof.
  apply (normalise_ignores_trailing_comment " 192.0.2.0/24 " " remark # more");
    reflexivity.
Defined.

(** X15: normalising a normalised value only trims whitespace at its ends,
    and for a value of one line it changes nothing: [_normalise_rpsl_value]
    is idempotent on single-line values. *)
Theorem normalise_twice value :
  _normalise_rpsl_value (_normalise_rpsl_value value)
  = strip (_normalise_rpsl_value value)
  ∧ (contains LF value = false →
     _normalise_rpsl_value (_normalise_rpsl_value value)
     = _normalise_rpsl_value value).
Proof.
  assert (_normalise_rpsl_value (_normalise_rpsl_value value)
          = strip (_normalise_rpsl_value value)) as Htwice.
  { unfold _normalise_rpsl_value at 1.
    pose proof (normalise_no_newline value) as H1%count_contains.
    pose proof (normalise_no_hash value) as H2%count_contains.
    by rewrite H1, H2. }
  split; [done|]. intros Hnl. rewrite Htwice.
  unfold _normalise_rpsl_value. rewrite Hnl. cbn [negb].
  destruct (contains "#" value); apply strip_chars_idem.
Qed.

Lemma normalise_twice_witness :
  _normalise_rpsl_value (_normalise_rpsl_value " AS65000 # local ")
  = _normalise_rpsl_value " AS65000 # local ".
Proof.
  destruct (normalise_twice " AS65000 # local ") as [_ Hidem].
  apply Hidem. reflexivity.
Defined.

(** ** Updating an attribute *)

Lemma filter_all {A} (P : A → Prop) `{∀ x, Decision (P x)} l :
  Forall P l → filter P l = l.
Proof.
  induction 1 as [|x l Hx _ IH]; [done|].
  rewrite filter_cons_True; [|done]. by rewrite IH.
Qed.

Lemma filter_none {A} (P : A → Prop) `{∀ x, Decision (P x)} l :
  Forall (λ x, ¬ P x) l → filter P l = [].
Proof.
  induction 1 as [|x l Hx _ IH]; [done|].
  rewrite filter_cons_False; [|done]. by rewrite IH.
Qed.

Lemma filter_satisfied {A} (P : A → Prop) `{∀ x, Decision (P x)} l :
  Forall P (filter P l).
Proof. apply Forall_forall. by intros x [? _]%list_elem_of_filter. Qed.

Lemma update_attribute_value_ok o cd attribute new_values :
  cleaned_data o = Some cd →
  let kept := filter (λ a, attr_of a ≠ attribute) (_object_data o) in
  _update_attribute_value o attribute new_values =
    Ok {| strict_validation := strict_validation o;
          messages := messages o;
          _object_data :=
            take 1 kept
            ++ map (λ v, (attribute, v, [])) (values_of new_values)
            ++ drop 1 kept;
          cleaned_data :=
            Some (<["attribute" := join NL (values_of new_values)]> cd) |}.
Proof.
  intros Hcd kept. unfold _update_attribute_value. rewrite Hcd.
  cbn [set_cleaned_data set_object_data _object_data strict_validation
       messages cleaned_data].
  rewrite insert_values_closed. by destruct new_values.
Qed.

Lemma update_attribute_value_cleaned o attribute new_values o' :
  _update_attribute_value o attribute new_values = Ok o' →
  ∃ cd, cleaned_data o = Some cd.
Proof.
  unfold _update_attribute_value.
  destruct (cleaned_data o) as [cd|]; [by exists cd|done].
Qed.

Section UpdatedLines.
Context (attribute : string) (new_values : list string)
        (data : list ObjectLine).

Let kept := filter (λ a, attr_of a ≠ attribute) data.
Let added : list ObjectLine := map (λ v, (attribute, v, [])) new_values.

Lemma added_all_named : Forall (λ a, attr_of a = attribute) added.
Proof. apply Forall_forall. by intros a (v & -> & _)%list_elem_of_fmap. Qed.

Lemma kept_none_named : Forall (λ a, attr_of a ≠ attribute) kept.
Proof. apply filter_satisfied. Qed.

Lemma updated_lines_named :
  filter (λ a, attr_of a = attribute) (take 1 kept ++ added ++ drop 1 kept)
  = added.
Proof.
  rewrite !filter_app.
  rewrite (filter_none _ (take 1 kept)), (filter_none _ (drop 1 kept)).
  - rewrite app_nil_l, app_nil_r. apply filter_all, added_all_named.
  - apply Forall_drop. eapply Forall_impl; [apply kept_none_named|done].
  - apply Forall_take. eapply Forall_impl; [apply kept_none_named|done].
Qed.

Lemma updated_lines_others :
  filter (λ a, attr_of a ≠ attribute) (take 1 kept ++ added ++ drop 1 kept)
  = kept.
Proof.
  rewrite !filter_app.
  rewrite (filter_all _ (take 1 kept)), (filter_all _ (drop 1 kept)).
  - rewrite (filter_none _ added).
    + by rewrite app_nil_l, take_drop.
    + eapply Forall_impl; [apply added_all_named|]. by intros a Ha Hn.
  - apply Forall_drop, kept_none_named.
  - apply Forall_take, kept_none_named.
Qed.

End UpdatedLines.

(** X16: after [_update_attribute_value] the lines named [attribute] are
    exactly one line per new value, in the given order and without
    continuation characters; the lines with another name are the ones held
    before, in their order; and making the same update again changes
    nothing. *)
Theorem update_replaces_and_is_idempotent o attribute new_values o' :
  _update_attribute_value o attribute new_values = Ok o' →
  filter (λ a, attr_of a = attribute) (_object_data o')
  = map (λ v, (attribute, v, [])) (values_of new_values)
  ∧ filter (λ a, attr_of a ≠ attribute) (_object_data o')
    = filter (λ a, attr_of a ≠ attribute) (_object_data o)
  ∧ _update_attribute_value o' attribute new_values = Ok o'.
Proof.
  intros Hupd.
  destruct (update_attribute_value_cleaned _ _ _ _ Hupd) as [cd Hcd].
  rewrite (update_attribute_value_ok o cd attribute new_values Hcd) in Hupd.
  injection Hupd as <-. cbn [_object_data]. split; [|split].
  - apply updated_lines_named.
  - apply updated_lines_others.
  - erewrite update_attribute_value_ok; [|reflexivity].
    cbn [_object_data strict_validation messages].
    by rewrite updated_lines_others, insert_insert_eq.
Qed.

Lemma update_replaces_and_is_idempotent_witness :
  ∃ o',
    _update_attribute_value
      (object_with [("x", "1", []); ("r", "old", []); ("y", "2", []);
                    ("r", "older", ["+"])])
      "r" (Values ["n1"; "n2"]) = Ok o'
    ∧ filter (λ a, attr_of a = "r") (_object_data o')
      = [("r", "n1", []); ("r", "n2", [])]
    ∧ _update_attribute_value o' "r" (Values ["n1"; "n2"]) = Ok o'.
Proof.
  eexists. split; [reflexivity|].
  destruct (update_replaces_and_is_idempotent
              (object_with [("x", "1", []); ("r", "old", []); ("y", "2", []);
                            ("r", "older", ["+"])])
              "r" (Values ["n1"; "n2"]) _ eq_refl) as (Hnamed & _ & Hidem).
  split; [exact Hnamed|exact Hidem].
Defined.

Lemma pk_depends_on_pk_fields cls o1 o2 cd1 cd2 :
  cleaned_data o1 = Some cd1 → cleaned_data o2 = Some cd2 →
  (∀ field, field ∈ pk_fields cls → cd1 !! field = cd2 !! field) →
  pk cls o1 = pk cls o2.
Proof.
  intros H1 H2 Hsame. unfold pk.
  assert (map (λ f, default "" (cd1 !! f)) (pk_fields cls)
          = map (λ f, default "" (cd2 !! f)) (pk_fields cls)) as Hmap.
  { apply map_ext_in. intros f Hf. rewrite Hsame; [done|].
    by apply list_elem_of_In. }
  destruct (pk_fields cls) as [|f [|g fs]] eqn:Hpk.
  - done.
  - unfold cleaned_get. rewrite H1, H2. injection Hmap as Hmap.
    by rewrite Hmap.
  - rewrite (composite_values_ok o1 cd1), (composite_values_ok o2 cd2); try done.
    by rewrite Hmap.
Qed.

(** X17: [_update_attribute_value] writes [cleaned_data] only under the key
    ["attribute"]: every other key keeps its value, whatever attribute is
    updated, so the primary key of the object stays as it was unless a
    primary-key field is itself called ["attribute"]. *)
Theorem update_keeps_other_cleaned_values cls o attribute new_values o' :
  _update_attribute_value o attribute new_values = Ok o' →
  ∃ cd cd',
    cleaned_data o = Some cd ∧ cleaned_data o' = Some cd'
    ∧ cd' !! "attribute" = Some (join NL (values_of new_values))
    ∧ (∀ key, key ≠ "attribute" → cd' !! key = cd !! key)
    ∧ ("attribute" ∉ pk_fields cls → pk cls o' = pk cls o).
Proof.
  intros Hupd.
  destruct (update_attribute_value_cleaned _ _ _ _ Hupd) as [cd Hcd].
  rewrite (update_attribute_value_ok o cd attribute new_values Hcd) in Hupd.
  injection Hupd as <-. eexists cd, _. split; [done|]. split; [reflexivity|].
  split; [apply lookup_insert_eq|]. split.
  - intros key Hkey. by apply lookup_insert_ne.
  - intros Hpk. eapply pk_depends_on_pk_fields; [reflexivity|exact Hcd|].
    intros field Hfield. apply lookup_insert_ne. by intros <-.
Qed.

Lemma update_keeps_other_cleaned_values_witness :
  ∃ o o',
    _validate_object sample_class (object_with [("a", "as1", [])]) = Ok o
    ∧ _update_attribute_value o "a" (OneValue "as2") = Ok o'
    ∧ pk sample_class o' = pk sample_class o
    ∧ pk sample_class o' = Ok (code_points "AS1").
Proof.
  eexists. eexists. split; [reflexivity|]. split; [reflexivity|].
  lazymatch goal with
  | |- pk _ ?o' = pk _ ?o ∧ _ =>
      destruct (update_keeps_other_cleaned_values sample_class o "a"
                  (OneValue "as2") o' eq_refl)
        as (cd & cd' & _ & _ & _ & _ & Hpk)
  end.
  split; [|reflexivity]. apply Hpk.
  change (pk_fields sample_class) with ["a"].
  intros H. inversion H as [|? ? ? H']; inversion H'.
Defined.

(** ** A text without content *)

Lemma RPSLObject_eta o :
  o = {| strict_validation := strict_validation o; messages := messages o;
         _object_data := _object_data o; cleaned_data := cleaned_data o |}.
Proof. by destruct o. Qed.

Lemma extract_blank_text cls o text :
  all_chars isspace text = true →
  _extract_attributes_values cls o text = Ok o.
Proof.
  intros Hblank. unfold _extract_attributes_values, strip, strip_chars.
  by rewrite lstrip_chars_all_empty.
Qed.

Lemma validate_counts_no_lines cls o :
  _object_data o = [] →
  _validate_attribute_counts cls o =
  {| strict_validation := strict_validation o;
     messages :=
       {| errors := errors (messages o)
                    ++ map (missing_error cls) (attrs_required cls);
          warnings := warnings (messages o) |};
     _object_data := [];
     cleaned_data := cleaned_data o |}.
Proof.
  intros Hdata. rewrite (RPSLObject_eta (_validate_attribute_counts cls o)).
  destruct (validate_counts_data cls o) as (-> & -> & ->).
  rewrite validate_counts_messages, Hdata. cbn [map Counter fold_left flat_map].
  rewrite app_nil_l, filter_all; [done|].
  by apply Forall_forall.
Qed.

(** X18: a text of whitespace only gives an object without attribute lines.
    The empty text is not read at all: the object has no messages and is not
    validated.  Any other blank text is read and validated: [cleaned_data] is
    empty and, under strict validation, the errors are one missing-attribute
    message per required attribute, in the order of the schema. *)
Theorem init_with_blank_text cls strict text :
  all_chars isspace text = true →
  RPSLObject_init cls (Some text) strict =
    Ok {| strict_validation := strict;
          messages :=
            {| errors :=
                 match text with
                 | "" => []
                 | _ => if strict
                        then map (missing_error cls) (attrs_required cls)
                        else []
                 end;
               warnings := [] |};
          _object_data := [];
          cleaned_data := match text with "" => None | _ => Some ∅ end |}.
Proof.
  intros Hblank. destruct text as [|c text]; [done|].
  unfold RPSLObject_init, read_rpsl_text.
  rewrite (extract_blank_text _ _ _ Hblank).
  unfold _validate_object, _clean_attribute_data.
  cbn [set_messages set_cleaned_data strict_validation messages _object_data
       cleaned_data].
  destruct strict; [|done].
  by rewrite validate_counts_no_lines.
Qed.

Lemma init_with_blank_text_witness :
  RPSLObject_init sample_class (Some (" " +:+ NL)) true =
    Ok {| strict_validation := true;
          messages :=
            {| errors := ["Mandatory attribute a on object a is missing"];
               warnings := [] |};
          _object_data := [];
          cleaned_data := Some ∅ |}.
Proof.
  exact (init_with_blank_text sample_class true (" " +:+ NL) eq_refl).
Defined.

(** ** The lists derived by the metaclass *)

Lemma fields_get_name_declared fs name f :
  fields_get fs name = Some f → name ∈ map fst fs.
Proof.
  intros H%fields_get_elem. apply list_elem_of_fmap. by exists (name, f).
Qed.

Lemma keys_where_cons p k g fs :
  keys_where p ((k, g) :: fs)
  = if p g then k :: keys_where p fs else keys_where p fs.
Proof.
  unfold keys_where. destruct (p g) eqn:E.
  - rewrite filter_cons_True; [done|]. done.
  - rewrite filter_cons_False; [done|]. cbn [snd]. by rewrite E.
Qed.

Lemma keys_where_spec p fs name :
  NoDup (map fst fs) →
  name ∈ keys_where p fs
  ↔ ∃ f, fields_get fs name = Some f ∧ p f = true.
Proof.
  induction fs as [|[k g] fs IH]; intros Hnodup.
  - split; [by intros H%elem_of_nil|by intros (f & H & _)].
  - cbn [map fst] in Hnodup. apply NoDup_cons in Hnodup as [Hk Hnodup].
    rewrite keys_where_cons. cbn [fields_get].
    destruct (String.eqb k name) eqn:E.
    + apply String.eqb_eq in E as ->. split.
      * intros Hin. exists g. split; [done|].
        destruct (p g); [done|].
        apply (IH Hnodup) in Hin as (f & Hf & _).
        by apply fields_get_name_declared in Hf.
      * intros (f & [= <-] & ->). by left.
    + apply String.eqb_neq in E. rewrite <- (IH Hnodup).
      destruct (p g); [|done]. rewrite elem_of_cons. split; [|by right].
      by intros [->|H].
Qed.

Lemma fields_get_declared fs name :
  name ∈ map fst fs ↔ is_Some (fields_get fs name).
Proof.
  induction fs as [|[k g] fs IH].
  - split; [by intros H%elem_of_nil|by intros [f H]].
  - cbn [map fst fields_get]. rewrite elem_of_cons.
    destruct (String.eqb k name) eqn:E.
    + apply String.eqb_eq in E as ->. split; [by eexists|by left].
    + apply String.eqb_neq in E. rewrite <- IH. split; [|by right].
      by intros [->|H].
Qed.

(** X19: for a class whose fields have distinct names, the lists derived by
    the metaclass agree with what [fields.get] finds: a name is allowed
    exactly when it has a field, and it is a primary key, a lookup key,
    required or repeatable exactly when its field says so; the object class
    is the first allowed name. *)
Theorem metaclass_lists_follow_fields fs name :
  NoDup (map fst fs) →
  let cls := RPSLObjectMeta_init fs in
  (name ∈ attrs_allowed cls ↔ is_Some (fields_get (fields cls) name))
  ∧ (name ∈ pk_fields cls
     ↔ ∃ f, fields_get (fields cls) name = Some f ∧ primary_key f = true)
  ∧ (name ∈ lookup_fields cls
     ↔ ∃ f, fields_get (fields cls) name = Some f ∧ lookup_key f = true)
  ∧ (name ∈ attrs_required cls
     ↔ ∃ f, fields_get (fields cls) name = Some f ∧ optional f = false)
  ∧ (name ∈ attrs_multiple cls
     ↔ ∃ f, fields_get (fields cls) name = Some f ∧ multiple f = true)
  ∧ rpsl_object_class cls = head (attrs_allowed cls).
Proof.
  intros Hnodup cls.
  assert (fields cls = fs ∧ attrs_allowed cls = map fst fs
          ∧ pk_fields cls = keys_where primary_key fs
          ∧ lookup_fields cls = keys_where lookup_key fs
          ∧ attrs_required cls = keys_where (λ f, negb (optional f)) fs
          ∧ attrs_multiple cls = keys_where multiple fs
          ∧ rpsl_object_class cls = head (map fst fs))
    as (-> & -> & -> & -> & -> & -> & ->).
  { subst cls. by destruct fs as [|[k f0] fs]. }
  split; [apply fields_get_declared|].
  split; [by apply keys_where_spec|].
  split; [by apply keys_where_spec|].
  split; [|split; [by apply keys_where_spec|done]].
  rewrite (keys_where_spec _ fs name Hnodup).
  split; intros (f & Hf & Hopt); exists f; (split; [done|]);
    by destruct (optional f).
Qed.

Lemma metaclass_lists_follow_fields_witness :
  "a" ∈ attrs_required sample_class
  ↔ ∃ f, fields_get (fields sample_class) "a" = Some f ∧ optional f = false.
Proof.
  destruct (metaclass_lists_follow_fields
              [("a", sample_field true true false false);
               ("b", sample_field false false true true);
               ("c", sample_field false false true false)] "a")
    as (_ & _ & _ & Hrequired & _); [|exact Hrequired].
  cbn [map fst]. repeat (apply NoDup_cons; split); try apply NoDup_nil_2;
    intros H; repeat (inversion H as [|? ? ? H']; clear H; rename H' into H).
Defined.

(** ** Validation that is not strict *)

Lemma clean_loop_skips cls entries :
  ∀ o idx,
    strict_validation o = false →
    Forall (λ a, ∀ f, fields_get (fields cls) (attr_of a) = Some f →
                      primary_key f = false ∧ lookup_key f = false) entries →
    clean_loop cls o idx entries = Ok o.
Proof.
  induction entries as [|[[a v] cc] entries IH]; intros o idx Hs Hall; [done|].
  apply Forall_cons in Hall as [Ha Hall]. cbn [clean_loop clean_line].
  cbn [attr_of fst] in Ha.
  destruct (fields_get (fields cls) a) as [f|] eqn:Hf.
  - destruct (Ha f eq_refl) as [-> ->]. rewrite Hs. cbn [orb]. by apply IH.
  - by apply IH.
Qed.

(** X20: without strict validation, an object none of whose lines belongs to
    a primary-key or lookup-key field passes [_validate_object] untouched: no
    message is added (unknown, repeated and missing attributes are not
    reported), no value is cleaned or rewritten, and [cleaned_data] is
    empty. *)
Theorem non_strict_validation_skips_other_fields cls o :
  strict_validation o = false →
  (∀ a f, a ∈ _object_data o →
          fields_get (fields cls) (attr_of a) = Some f →
          primary_key f = false ∧ lookup_key f = false) →
  _validate_object cls o = Ok (set_cleaned_data o ∅).
Proof.
  intros Hs Hall. unfold _validate_object, _clean_attribute_data.
  cbn [set_cleaned_data strict_validation]. rewrite Hs.
  rewrite clean_loop_skips; [done|done|].
  apply Forall_forall. intros a Ha f. by apply Hall.
Qed.

Lemma non_strict_validation_skips_other_fields_witness :
  _validate_object sample_class
    {| strict_validation := false; messages := no_messages;
       _object_data := [("b", "1 # x", []); ("b", "2", []); ("zz", "", [])];
       cleaned_data := None |}
  = Ok {| strict_validation := false; messages := no_messages;
          _object_data := [("b", "1 # x", []); ("b", "2", []); ("zz", "", [])];
          cleaned_data := Some ∅ |}.
Proof.
  apply (non_strict_validation_skips_other_fields sample_class
           {| strict_validation := false; messages := no_messages;
              _object_data :=
                [("b", "1 # x", []); ("b", "2", []); ("zz", "", [])];
              cleaned_data := None |}); [reflexivity|].
  intros a f. cbn [_object_data]. rewrite !elem_of_cons, elem_of_nil.
  intros [->|[->|[->|[]]]]; cbn; intros [= <-]; done.
Defined.

(** ** What [cleaned_data] holds for an attribute that occurs several times *)

Lemma join_app sep xs ys :
  xs ≠ [] → ys ≠ [] →
  join sep (xs ++ ys) = join sep xs +:+ sep +:+ join sep ys.
Proof.
  intros Hxs Hys. induction xs as [|x [|x' xs] IH]; [done| |].
  - destruct ys as [|y ys]; [done|]. done.
  - change ((x :: x' :: xs) ++ ys) with (x :: x' :: (xs ++ ys)).
    rewrite !join_cons.
    change (x' :: xs ++ ys) with ((x' :: xs) ++ ys).
    rewrite IH; [|done]. by rewrite !append_assoc.
Qed.

Lemma joined_after_app previous xs ys :
  joined_after (joined_after previous xs) ys = joined_after previous (xs ++ ys).
Proof.
  destruct xs as [|x xs]; [done|]. destruct ys as [|y ys].
  - by rewrite app_nil_r.
  - unfold joined_after at 1 3.
    change ((x :: xs) ++ y :: ys) with (x :: (xs ++ y :: ys)).
    cbv beta iota. unfold joined_after.
    change (x :: (xs ++ y :: ys)) with ((x :: xs) ++ (y :: ys)).
    rewrite join_app; [|done|done].
    destruct previous as [p|]; [|done]. by rewrite !append_assoc.
Qed.

Lemma normalised_values_cons name e entries :
  normalised_values name (e :: entries)
  = normalised_values name [e] ++ normalised_values name entries.
Proof.
  unfold normalised_values.
  change (e :: entries) with ([e] ++ entries).
  by rewrite filter_app, map_app, filter_app.
Qed.

Lemma normalised_values_single name a v cc :
  normalised_values name [(a, v, cc)]
  = if decide (a = name)
    then match _normalise_rpsl_value v with
         | "" => []
         | n => [n]
         end
    else [].
Proof.
  unfold normalised_values. destruct (decide (a = name)) as [Ha|Ha].
  - rewrite filter_cons_True; [|exact Ha].
    rewrite filter_nil. cbn [map value_of fst snd].
    destruct (_normalise_rpsl_value v) eqn:E.
    + by rewrite filter_cons_False; [|intros H].
    + by rewrite filter_cons_True.
  - by rewrite filter_cons_False; [|exact Ha].
Qed.

Section JoinedOccurrences.
Context (cls : RPSLClass) (Haccepts : accepts_as_given cls).

Lemma clean_line_joined o idx entry cd :
  cleaned_data o = Some cd →
  ∃ o1 cd1,
    clean_line cls o idx entry = Ok o1 ∧ cleaned_data o1 = Some cd1
    ∧ strict_validation o1 = strict_validation o
    ∧ ∀ name,
        cd1 !! name =
        joined_after (cd !! name)
          (if is_cleaned cls (strict_validation o) name
           then normalised_values name [entry] else []).
Proof.
  intros Hcd. destruct entry as [[a v] cc].
  assert (∀ name,
            is_cleaned cls (strict_validation o) a = false →
            cd !! name =
            joined_after (cd !! name)
              (if is_cleaned cls (strict_validation o) name
               then normalised_values name [(a, v, cc)] else [])) as Hskip.
  { intros name Ha. rewrite normalised_values_single.
    destruct (decide (a = name)) as [<-|_]; [by rewrite Ha|].
    by destruct (is_cleaned _ _ name). }
  unfold clean_line. unfold is_cleaned in Hskip at 1.
  destruct (fields_get (fields cls) a) as [f|] eqn:Hf;
    [|exists o, cd; repeat split; try done; intros name; by apply Hskip].
  destruct (strict_validation o || primary_key f || lookup_key f) eqn:Happ;
    [|exists o, cd; repeat split; try done; intros name; by apply Hskip].
  clear Hskip.
  destruct (Haccepts a f (_normalise_rpsl_value v) (messages o) Hf)
    as [m' ->].
  destruct (_normalise_rpsl_value v) as [|ch n] eqn:Hn.
  - exists (set_messages o m'), cd. repeat split; try done.
    intros name. rewrite normalised_values_single, Hn.
    by destruct (is_cleaned _ _ name), (decide (a = name)).
  - rewrite String.eqb_refl. cbn [negb cleaned_data set_messages].
    rewrite Hcd.
    assert (∀ w name,
              (w = match cd !! a with
                   | Some previous => previous +:+ NL +:+ String ch n
                   | None => String ch n
                   end) →
              <[a := w]> cd !! name =
              joined_after (cd !! name)
                (if is_cleaned cls (strict_validation o) name
                 then normalised_values name [(a, v, cc)] else []))
      as Hstep.
    { intros w name ->. rewrite normalised_values_single, Hn.
      destruct (decide (a = name)) as [<-|Hne].
      - rewrite lookup_insert_eq. unfold is_cleaned. rewrite Hf, Happ.
        by destruct (cd !! a).
      - rewrite lookup_insert_ne; [|done].
        by destruct (is_cleaned _ _ name). }
    destruct (cd !! a) as [previous|] eqn:Hprev; eexists _, _;
      (split; [reflexivity|]); (split; [reflexivity|]); (split; [done|]);
      intros name; by apply Hstep.
Qed.

Lemma clean_loop_joined entries :
  ∀ o idx cd,
    cleaned_data o = Some cd →
    ∃ o' cd',
      clean_loop cls o idx entries = Ok o' ∧ cleaned_data o' = Some cd'
      ∧ ∀ name,
          cd' !! name =
          joined_after (cd !! name)
            (if is_cleaned cls (strict_validation o) name
             then normalised_values name entries else []).
Proof.
  induction entries as [|e es IH]; intros o idx cd Hcd.
  - exists o, cd. repeat split; try done.
    intros name. by destruct (is_cleaned _ _ name).
  - cbn [clean_loop].
    destruct (clean_line_joined o idx e cd Hcd)
      as (o1 & cd1 & -> & Hcd1 & Hs & H1).
    destruct (IH o1 (S idx) cd1 Hcd1) as (o' & cd' & -> & Hcd' & H2).
    exists o', cd'. repeat split; try done.
    intros name. rewrite H2, H1, Hs, joined_after_app.
    rewrite (normalised_values_cons name e es).
    by destruct (is_cleaned _ _ name).
Qed.

End JoinedOccurrences.

(** X21: when the capabilities of the fields accept every value as given,
    [cleaned_data] holds after [_validate_object], for every name that is
    cleaned (it has a field, and validation is strict or the field is a
    primary or lookup key), the normalised values of the lines with that
    name, in their order and joined by newlines, the empty ones left out;
    there is no entry when nothing is left or the name is not cleaned. *)
Theorem cleaned_data_joins_occurrences cls o :
  accepts_as_given cls →
  ∃ o' cd,
    _validate_object cls o = Ok o' ∧ cleaned_data o' = Some cd
    ∧ ∀ name,
        cd !! name =
        if is_cleaned cls (strict_validation o) name
        then match normalised_values name (_object_data o) with
             | [] => None
             | values => Some (join NL values)
             end
        else None.
Proof.
  intros Haccepts. destruct (validate_object_ok cls o) as (o' & Hv & _).
  destruct (validate_object_clean_loop cls o o' Hv)
    as (start & Hloop & Hd & Hcd & Hs).
  destruct (clean_loop_joined cls Haccepts (_object_data o) start 0 ∅ Hcd)
    as (o'' & cd & Hloop' & Hcd' & Hjoin).
  rewrite Hloop in Hloop'. injection Hloop' as <-.
  exists o', cd. split; [done|]. split; [done|].
  intros name. rewrite Hjoin, Hs, lookup_empty.
  destruct (is_cleaned _ _ name); [|done].
  by destruct (normalised_values name (_object_data o)).
Qed.

Lemma sample_class_accepts_as_given : accepts_as_given sample_class.
Proof.
  intros name field value m Hf. exists m.
  apply fields_get_elem in Hf. cbn in Hf.
  rewrite !elem_of_cons, elem_of_nil in Hf.
  by destruct Hf as [[= _ ->]|[[= _ ->]|[[= _ ->]|[]]]].
Qed.

Lemma cleaned_data_joins_occurrences_witness :
  ∃ o' cd,
    _validate_object sample_class
      (object_with [("b", "x # one", []); ("a", "k", []); ("b", "#", []);
                    ("b", " y" +:+ NL +:+ "z,", ["+"])]) = Ok o'
    ∧ cleaned_data o' = Some cd
    ∧ cd !! "b" = Some ("x" +:+ NL +:+ "y,z").
Proof.
  destruct (cleaned_data_joins_occurrences sample_class
              (object_with [("b", "x # one", []); ("a", "k", []);
                            ("b", "#", []);
                            ("b", " y" +:+ NL +:+ "z,", ["+"])])
              sample_class_accepts_as_given)
    as (o' & cd & Hv & Hcd & Hjoin).
  exists o', cd. split; [exact Hv|]. split; [exact Hcd|].
  rewrite (Hjoin "b"). reflexivity.
Defined.

(** ** Continuation lines without an attribute *)






(** ** Rendering a constructed object *)

Lemma extracted_renderable cls strict text o :
  _extract_attributes_values cls (new_object strict) text = Ok o →
  Forall renderable (_object_data o).
Proof.
  intros Hextract.
  eapply Forall_impl; [|apply value_well_formed_renderable].
  eapply (extract_loop_value_well_formed cls); [| | |exact Hextract].
  - apply splitlines_no_linebreak.
  - constructor.
  - exists [""]. repeat split; try done. by apply Forall_singleton.
Qed.

(** X23: for a schema whose fields return the values they are given (or the
    empty string, or nothing), every object the constructor returns can be
    rendered, whatever the text and the strictness: [render_rpsl_text] gives
    the rendered lines of its attribute lines and does not raise. *)
Theorem constructed_object_renders cls from_text strict o :
  cleans_as_given cls →
  RPSLObject_init cls from_text strict = Ok o →
  render_rpsl_text o = Ok (unlines (flat_map rendered_lines (_object_data o))).
Proof.
  intros Hcls. unfold RPSLObject_init.
  destruct from_text as [[|c text]|]; try by intros [= <-].
  unfold read_rpsl_text.
  change (set_messages _ no_messages) with (new_object strict).
  destruct (_extract_attributes_values cls (new_object strict) (String c text))
    as [o2|] eqn:Hextract; [|done].
  intros Hv. apply render_entries_lines.
  destruct (validate_object_clean_loop cls o2 o Hv) as (start & Hloop & Hd & _).
  rewrite <- Hd in Hloop.
  rewrite (clean_loop_as_given cls _ Hcls _ _ _ Hloop), Hd.
  by eapply extracted_renderable.
Qed.

Lemma constructed_object_renders_witness :
  ∃ o,
    RPSLObject_init sample_class
      (Some ("A:  x # c" +:+ NL +:+ "+  y" +:+ NL +:+ "b:")) true = Ok o
    ∧ render_rpsl_text o
      = Ok ("a:              x # c" +:+ NL +:+ "+               y" +:+ NL
            +:+ "b:" +:+ NL).
Proof.
  eexists. split; [reflexivity|].
  lazymatch goal with
  | |- render_rpsl_text ?o = _ =>
      rewrite (constructed_object_renders sample_class
                 (Some ("A:  x # c" +:+ NL +:+ "+  y" +:+ NL +:+ "b:")) true o
                 sample_class_cleans_as_given eq_refl)
  end.
  reflexivity.
Defined.
